(** * usermigrate: the import pipeline of [usermigrate/main.py]

    A shallow embedding of the migration script: the record store
    ([cache_object]), the outcome log ([write_log_message]), the per-record
    import procedure ([import_value]), the batch import
    ([populate_keycloak]), discovery ([discover]) and the orchestration in
    [main], over an explicit world made of the files on disk, the state of
    the Keycloak server and the list of API calls issued so far. *)

From Stdlib Require Import ZArith Ascii String Decimal DecimalString.
From Stdlib Require Import DecimalFacts DecimalPos DecimalN DecimalZ.
From stdpp Require Import gmap strings list.

Local Open Scope Z_scope.
#[local] Set Warnings "-register-all".

(** ** Python exceptions *)

(** The exception classes the script names or can meet.  All of them derive
    from [Exception] except [KeyboardInterrupt], which stands for the
    classes that derive from [BaseException] only and that an
    [except Exception] clause lets through. *)
Inductive exn_class : Type :=
| KeycloakConflictError
| KeycloakAuthenticationError
| KeycloakCommunicationError
| ConnectionError
| ProgrammingError
| FileNotFoundError
| KeyError
| TypeError
| AttributeError
| JSONDecodeError
| EOFError
| OtherException
| KeyboardInterrupt.

#[global] Instance exn_class_eq_dec : EqDecision exn_class.
Proof. solve_decision. Defined.

(** An exception object: its class and the text [str(e)] gives. *)
Record exn : Type := Exn { exn_cls : exn_class; exn_str : string }.

(** Modelled from the spec: [usermigrate/keycloak/exceptions.py] is not
    part of the sources at hand.  The spec names three separate conditions
    (Conflict, Authentication, Communication), each an error the client
    raises, so the three classes are taken as unrelated subclasses of
    [Exception]: [isinstance e cls] holds exactly when [e] was raised with
    class [cls]. *)
Definition isinstance (e : exn) (cls : exn_class) : bool :=
  bool_decide (exn_cls e = cls).

(** [isinstance(e, Exception)]. *)
Definition is_Exception (e : exn) : bool :=
  negb (bool_decide (exn_cls e = KeyboardInterrupt)).

(** The result of running a piece of Python: a value, or a raised
    exception on its way up the stack. *)
Inductive result (A : Type) : Type :=
| Ret (a : A)
| Raise (e : exn).
Arguments Ret {A} a.
Arguments Raise {A} e.

(** ** Records: the values [json.loads] produces *)

(** Numbers are integers; floats are outside the model.  A [dict] is the
    list of its items in insertion order, and its keys are pairwise
    distinct ([wf_value]).  A [str] is the list of its code points, here
    restricted to the code points below 256. *)
Inductive value : Type :=
| VNone
| VBool (b : bool)
| VInt (z : Z)
| VStr (s : string)
| VList (l : list value)
| VDict (d : list (string * value)).

Fixpoint dict_get (d : list (string * value)) (k : string) : option value :=
  match d with
  | [] => None
  | (k', v) :: d' => if String.eqb k' k then Some v else dict_get d' k
  end.

(** The invariant of Python dicts: no key occurs twice, at any depth. *)
Fixpoint wf_value (v : value) : bool :=
  match v with
  | VList l => forallb wf_value l
  | VDict d =>
      bool_decide (NoDup (map fst d)) && forallb (fun kv => wf_value (snd kv)) d
  | _ => true
  end.

(** [bool(v)], as [not name] takes it. *)
Definition py_truthy (v : value) : bool :=
  match v with
  | VNone => false
  | VBool b => b
  | VInt z => negb (z =? 0)
  | VStr s => negb (String.eqb s "")
  | VList l => match l with [] => false | _ => true end
  | VDict d => match d with [] => false | _ => true end
  end.

(** [type(v).__name__]. *)
Definition type_name (v : value) : string :=
  match v with
  | VNone => "NoneType"
  | VBool _ => "bool"
  | VInt _ => "int"
  | VStr _ => "str"
  | VList _ => "list"
  | VDict _ => "dict"
  end.

(** [value.get(key)]: only a dict has the method. *)
Definition py_get (v : value) (key : string) : result value :=
  match v with
  | VDict d => Ret (default VNone (dict_get d key))
  | _ => Raise (Exn AttributeError
                  ("'" +:+ type_name v +:+ "' object has no attribute 'get'"))
  end.

(** ** Text helpers *)

Definition dquote : ascii := "034"%char.
Definition squote : ascii := "039"%char.
Definition backslash : ascii := "092"%char.
Definition newline : ascii := "010"%char.
Definition creturn : ascii := "013"%char.
Definition tab : ascii := "009"%char.
Definition backspace : ascii := "008"%char.
Definition formfeed : ascii := "012"%char.

Definition str1 (c : ascii) : string := String c "".

Fixpoint join (sep : string) (l : list string) : string :=
  match l with
  | [] => ""
  | [x] => x
  | x :: l' => x +:+ sep +:+ join sep l'
  end.

Fixpoint concat_map (f : ascii -> string) (s : string) : string :=
  match s with
  | EmptyString => ""
  | String c s' => f c +:+ concat_map f s'
  end.

Fixpoint string_mem (c : ascii) (s : string) : bool :=
  match s with
  | EmptyString => false
  | String c' s' => Ascii.eqb c c' || string_mem c s'
  end.

Definition hex_digit (n : N) : ascii :=
  (if n <? 10 then ascii_of_N (48 + n) else ascii_of_N (87 + n))%N.

(** The two lowercase hexadecimal digits of a code point below 256. *)
Definition hex2 (c : ascii) : string :=
  let n := N_of_ascii c in
  String (hex_digit (n / 16)%N) (String (hex_digit (n mod 16)%N) "").

(** [str(z)] for an int. *)
Definition str_of_Z (z : Z) : string := NilZero.string_of_int (Z.to_int z).
Definition str_of_nat (n : nat) : string := str_of_Z (Z.of_nat n).

(** ** [json.dumps] with its default arguments *)

(** [ensure_ascii] is on: inside a string literal every character outside
    the printable ASCII range, the quote and the backslash are escaped. *)
Definition json_escape_char (c : ascii) : string :=
  if Ascii.eqb c dquote then String backslash (str1 dquote)
  else if Ascii.eqb c backslash then String backslash (str1 backslash)
  else if Ascii.eqb c newline then String backslash "n"
  else if Ascii.eqb c creturn then String backslash "r"
  else if Ascii.eqb c tab then String backslash "t"
  else if Ascii.eqb c backspace then String backslash "b"
  else if Ascii.eqb c formfeed then String backslash "f"
  else if ((32 <=? N_of_ascii c) && (N_of_ascii c <=? 126))%N then str1 c
  else String backslash ("u00" +:+ hex2 c).

Definition json_string (s : string) : string :=
  String dquote (concat_map json_escape_char s +:+ str1 dquote).

(** The item separator is [", "] and the key separator [": "]. *)
Fixpoint json_dumps (v : value) : string :=
  match v with
  | VNone => "null"
  | VBool true => "true"
  | VBool false => "false"
  | VInt z => str_of_Z z
  | VStr s => json_string s
  | VList l => "[" +:+ join ", " (map json_dumps l) +:+ "]"
  | VDict d =>
      "{" +:+
      join ", " (map (fun kv => json_string (fst kv) +:+ ": " +:+ json_dumps (snd kv)) d)
      +:+ "}"
  end.

(** ** [repr] and [str], as the f-strings of the log messages use them *)

Definition repr_printable (c : ascii) : bool :=
  let n := N_of_ascii c in
  ((32 <=? n) && (n <=? 126) || (161 <=? n) && negb (n =? 173))%N.

Definition repr_escape_char (quote : ascii) (c : ascii) : string :=
  if Ascii.eqb c quote || Ascii.eqb c backslash then String backslash (str1 c)
  else if Ascii.eqb c tab then String backslash "t"
  else if Ascii.eqb c newline then String backslash "n"
  else if Ascii.eqb c creturn then String backslash "r"
  else if repr_printable c then str1 c
  else String backslash ("x" +:+ hex2 c).

(** Single quotes, unless the text holds a single quote and no double one. *)
Definition repr_string (s : string) : string :=
  let quote :=
    if string_mem squote s && negb (string_mem dquote s) then dquote else squote in
  String quote (concat_map (repr_escape_char quote) s +:+ str1 quote).

Fixpoint py_repr (v : value) : string :=
  match v with
  | VNone => "None"
  | VBool true => "True"
  | VBool false => "False"
  | VInt z => str_of_Z z
  | VStr s => repr_string s
  | VList l => "[" +:+ join ", " (map py_repr l) +:+ "]"
  | VDict d =>
      "{" +:+
      join ", " (map (fun kv => repr_string (fst kv) +:+ ": " +:+ py_repr (snd kv)) d)
      +:+ "}"
  end.

Definition py_str (v : value) : string :=
  match v with
  | VStr s => s
  | _ => py_repr v
  end.

(** ** [json.loads] *)

Definition is_ws (c : ascii) : bool :=
  Ascii.eqb c " " || Ascii.eqb c tab || Ascii.eqb c newline || Ascii.eqb c creturn.

Fixpoint skip_ws (s : string) : string :=
  match s with
  | String c s' => if is_ws c then skip_ws s' else s
  | EmptyString => s
  end.

Definition is_digit (c : ascii) : bool :=
  ((48 <=? N_of_ascii c) && (N_of_ascii c <=? 57))%N.

Definition hexval (c : ascii) : option N :=
  let n := N_of_ascii c in
  (if (48 <=? n) && (n <=? 57) then Some (n - 48)
   else if (97 <=? n) && (n <=? 102) then Some (n - 87)
   else if (65 <=? n) && (n <=? 70) then Some (n - 55)
   else None)%N.

Definition hex4 (h1 h2 h3 h4 : ascii) : option N :=
  match hexval h1, hexval h2, hexval h3, hexval h4 with
  | Some a, Some b, Some c, Some d => Some (((a * 16 + b) * 16 + c) * 16 + d)%N
  | _, _, _, _ => None
  end.

(** The character a backslash escape other than [\u] stands for. *)
Definition unescape (e : ascii) : option ascii :=
  if Ascii.eqb e dquote then Some dquote
  else if Ascii.eqb e backslash then Some backslash
  else if Ascii.eqb e "/" then Some "/"%char
  else if Ascii.eqb e "b" then Some backspace
  else if Ascii.eqb e "f" then Some formfeed
  else if Ascii.eqb e "n" then Some newline
  else if Ascii.eqb e "r" then Some creturn
  else if Ascii.eqb e "t" then Some tab
  else None.

Definition prepend (c : ascii) (r : option (string * string)) : option (string * string) :=
  match r with
  | Some (s, rest) => Some (String c s, rest)
  | None => None
  end.

(** The body of a string literal, after its opening quote, up to and with
    the closing quote.  The decoder is strict: a raw control character is
    an error.  An escape [\uXXXX] of a code point from 256 on is outside
    the model and answers [None]. *)
Fixpoint scan_string (s : string) : option (string * string) :=
  match s with
  | EmptyString => None
  | String c s' =>
      if Ascii.eqb c dquote then Some ("", s')
      else if Ascii.eqb c backslash then
        match s' with
        | EmptyString => None
        | String e s'' =>
            if Ascii.eqb e "u" then
              match s'' with
              | String h1 (String h2 (String h3 (String h4 s3))) =>
                  match hex4 h1 h2 h3 h4 with
                  | Some n =>
                      if (n <? 256)%N then prepend (ascii_of_N n) (scan_string s3)
                      else None
                  | None => None
                  end
              | _ => None
              end
            else
              match unescape e with
              | Some c' => prepend c' (scan_string s'')
              | None => None
              end
        end
      else if (N_of_ascii c <? 32)%N then None
      else prepend c (scan_string s')
  end.

Fixpoint scan_digits (s : string) : string * string :=
  match s with
  | String c s' =>
      if is_digit c then let '(ds, rest) := scan_digits s' in (String c ds, rest)
      else ("", s)
  | EmptyString => ("", s)
  end.

(** The integer part of a number: a lone zero, or a digit from 1 to 9
    and the digits after it. *)
Definition scan_nat (s : string) : option (Z * string) :=
  match s with
  | String c s' =>
      if Ascii.eqb c "0" then Some (0, s')
      else if is_digit c then
        let '(ds, rest) := scan_digits s in
        match NilEmpty.uint_of_string ds with
        | Some u => Some (Z.of_uint u, rest)
        | None => None
        end
      else None
  | EmptyString => None
  end.

(** A number.  A fraction or an exponent makes it a float, which is
    outside the model; a stray [.], [e] or [E] after the digits is an
    error wherever a value can stand.  Both answer [None]. *)
Definition scan_number (s : string) : option (Z * string) :=
  let r := match s with
           | String c s' =>
               if Ascii.eqb c "-" then
                 match scan_nat s' with
                 | Some (z, rest) => Some (- z, rest)
                 | None => None
                 end
               else scan_nat s
           | EmptyString => None
           end in
  match r with
  | Some (z, String c rest) =>
      if Ascii.eqb c "." || Ascii.eqb c "e" || Ascii.eqb c "E" then None
      else Some (z, String c rest)
  | _ => r
  end.

(** [s] with the prefix [p] removed, when it starts with it. *)
Fixpoint strip_prefix (p s : string) : option string :=
  match p, s with
  | EmptyString, _ => Some s
  | String a p', String b s' => if Ascii.eqb a b then strip_prefix p' s' else None
  | String _ _, EmptyString => None
  end.

(** [d[k] = x] on a dict: a key already there keeps its place. *)
Fixpoint dict_set (k : string) (x : value) (d : list (string * value))
    : list (string * value) :=
  match d with
  | [] => [(k, x)]
  | (k', x') :: d' =>
      if String.eqb k' k then (k', x) :: d' else (k', x') :: dict_set k x d'
  end.

(** [dict(pairs)]. *)
Definition dict_of_pairs (pairs : list (string * value)) : list (string * value) :=
  fold_left (fun d kv => dict_set (fst kv) (snd kv) d) pairs [].

(** The scanner.  [parse_value] reads one value at the head of the text,
    [parse_elems] the items of a list after its first bracket, and
    [parse_members] the items of an object; each answers what it read and
    the text that follows.  The fuel bounds the nesting of calls. *)
Fixpoint parse_value (fuel : nat) (s : string) : option (value * string) :=
  match fuel with
  | O => None
  | S fuel' =>
      match s with
      | EmptyString => None
      | String c s' =>
          if Ascii.eqb c dquote then
            match scan_string s' with
            | Some (str, rest) => Some (VStr str, rest)
            | None => None
            end
          else if Ascii.eqb c "[" then
            match skip_ws s' with
            | String c1 rest1 =>
                if Ascii.eqb c1 "]" then Some (VList [], rest1)
                else match parse_elems fuel' (String c1 rest1) with
                     | Some (l, rest) => Some (VList l, rest)
                     | None => None
                     end
            | EmptyString => None
            end
          else if Ascii.eqb c "{" then
            match skip_ws s' with
            | String c1 rest1 =>
                if Ascii.eqb c1 "}" then Some (VDict [], rest1)
                else match parse_members fuel' (String c1 rest1) with
                     | Some (pairs, rest) => Some (VDict (dict_of_pairs pairs), rest)
                     | None => None
                     end
            | EmptyString => None
            end
          else if Ascii.eqb c "n" then
            match strip_prefix "ull" s' with
            | Some rest => Some (VNone, rest)
            | None => None
            end
          else if Ascii.eqb c "t" then
            match strip_prefix "rue" s' with
            | Some rest => Some (VBool true, rest)
            | None => None
            end
          else if Ascii.eqb c "f" then
            match strip_prefix "alse" s' with
            | Some rest => Some (VBool false, rest)
            | None => None
            end
          else
            match scan_number s with
            | Some (z, rest) => Some (VInt z, rest)
            | None => None
            end
      end
  end
with parse_elems (fuel : nat) (s : string) : option (list value * string) :=
  match fuel with
  | O => None
  | S fuel' =>
      match parse_value fuel' s with
      | Some (v, rest) =>
          match skip_ws rest with
          | String c rest1 =>
              if Ascii.eqb c "]" then Some ([v], rest1)
              else if Ascii.eqb c "," then
                match parse_elems fuel' (skip_ws rest1) with
                | Some (l, rest2) => Some (v :: l, rest2)
                | None => None
                end
              else None
          | EmptyString => None
          end
      | None => None
      end
  end
with parse_members (fuel : nat) (s : string)
    : option (list (string * value) * string) :=
  match fuel with
  | O => None
  | S fuel' =>
      match s with
      | String q s' =>
          if Ascii.eqb q dquote then
            match scan_string s' with
            | Some (key, rest) =>
                match skip_ws rest with
                | String c rest1 =>
                    if Ascii.eqb c ":" then
                      match parse_value fuel' (skip_ws rest1) with
                      | Some (v, rest2) =>
                          match skip_ws rest2 with
                          | String c2 rest3 =>
                              if Ascii.eqb c2 "}" then Some ([(key, v)], rest3)
                              else if Ascii.eqb c2 "," then
                                match parse_members fuel' (skip_ws rest3) with
                                | Some (l, rest4) => Some ((key, v) :: l, rest4)
                                | None => None
                                end
                              else None
                          | EmptyString => None
                          end
                      | None => None
                      end
                    else None
                | EmptyString => None
                end
            | None => None
            end
          else None
      | EmptyString => None
      end
  end.

(** [json.loads]: white space around the one value, nothing else after it.
    [None] stands for [JSONDecodeError] (and for texts outside the model). *)
Definition json_loads (s : string) : option value :=
  let s1 := skip_ws s in
  match parse_value (2 * String.length s1 + 1) s1 with
  | Some (v, rest) =>
      match skip_ws rest with
      | EmptyString => Some v
      | String _ _ => None
      end
  | None => None
  end.

(** ** Reading a text file line by line *)

(** [for line in file], in text mode with universal newlines: a line ends
    at ["\n"], ["\r\n"] or ["\r"], each handed over as ["\n"], which stays
    at the end of the line. *)
Fixpoint readlines (s : string) : list string :=
  match s with
  | EmptyString => []
  | String c s' =>
      if Ascii.eqb c newline then str1 newline :: readlines s'
      else if Ascii.eqb c creturn then
        match s' with
        | String c' s'' =>
            if Ascii.eqb c' newline then str1 newline :: readlines s''
            else str1 newline :: readlines s'
        | EmptyString => [str1 newline]
        end
      else
        match readlines s' with
        | [] => [str1 c]
        | line :: lines => String c line :: lines
        end
  end.

(** ** Group derivation: the Python operations it uses *)

Definition rbind {A B} (r : result A) (k : A -> result B) : result B :=
  match r with
  | Ret a => k a
  | Raise e => Raise e
  end.

(** [v[key]] with a string key. *)
Definition py_getitem (v : value) (key : string) : result value :=
  match v with
  | VDict d =>
      match dict_get d key with
      | Some x => Ret x
      | None => Raise (Exn KeyError (repr_string key))
      end
  | VList _ => Raise (Exn TypeError "list indices must be integers or slices, not str")
  | VStr _ => Raise (Exn TypeError "string indices must be integers, not 'str'")
  | _ => Raise (Exn TypeError ("'" +:+ type_name v +:+ "' object is not subscriptable"))
  end.

(** What [for x in v] goes through: the items of a list, the characters of
    a string, the keys of a dict. *)
Definition py_iter (v : value) : result (list value) :=
  match v with
  | VList l => Ret l
  | VStr s => Ret (map (fun c => VStr (str1 c)) (list_ascii_of_string s))
  | VDict d => Ret (map (fun kv => VStr (fst kv)) d)
  | _ => Raise (Exn TypeError ("'" +:+ type_name v +:+ "' object is not iterable"))
  end.

Definition hashable (v : value) : bool :=
  match v with
  | VList _ | VDict _ => false
  | _ => true
  end.

(** Equality of dict keys: [True == 1] and [False == 0]. *)
Definition key_eqb (a b : value) : bool :=
  match a, b with
  | VNone, VNone => true
  | VStr s, VStr t => String.eqb s t
  | VBool x, VBool y => Bool.eqb x y
  | VInt x, VInt y => x =? y
  | VBool x, VInt y | VInt y, VBool x => (if x then 1 else 0) =? y
  | _, _ => false
  end.

(** [groups[k] = x] on the dict of derived groups, whose keys are any
    hashable values. *)
Fixpoint groups_set (k x : value) (groups : list (value * value))
    : list (value * value) :=
  match groups with
  | [] => [(k, x)]
  | (k', x') :: groups' =>
      if key_eqb k' k then (k', x) :: groups'
      else (k', x') :: groups_set k x groups'
  end.

(** The inner loop [for group in user["groups"]]. *)
Fixpoint add_groups (names : list value) (groups : list (value * value))
    : result (list (value * value)) :=
  match names with
  | [] => Ret groups
  | group :: names' =>
      if hashable group then
        add_groups names' (groups_set group (VDict [("name", group)]) groups)
      else Raise (Exn TypeError ("unhashable type: '" +:+ type_name group +:+ "'"))
  end.

(** The outer loop [for user in users]. *)
Fixpoint derive_loop (users : list value) (groups : list (value * value))
    : result (list (value * value)) :=
  match users with
  | [] => Ret groups
  | user :: users' =>
      rbind (py_getitem user "groups") (fun gs =>
      rbind (py_iter gs) (fun names =>
      rbind (add_groups names groups) (fun groups' =>
      derive_loop users' groups')))
  end.

(** Lines 151-155 of [main]: [groups.values()] at the end. *)
Definition derive_groups (users : list value) : result (list value) :=
  rbind (derive_loop users []) (fun groups => Ret (map snd groups)).

(** ** The world the script runs in *)

(** Text files by path, and the lines shown on the console ([print] and
    [LOG.error] alike).  Paths are names relative to the working directory,
    which a run never changes, so [os.path.abspath] is the identity. *)
Definition abspath (p : string) : string := p.

Inductive ImportResult : Type := FAILED | LOADED | EXISTS | SKIPPED.

#[global] Instance ImportResult_eq_dec : EqDecision ImportResult.
Proof. solve_decision. Defined.

(** [open(path, "a")] followed by [write(message + "\n")]. *)
Definition write_log_message (log_file_path message : string)
    (fs : gmap string string) : gmap string string :=
  <[log_file_path := default "" (fs !! log_file_path) +:+ message +:+ str1 newline]> fs.

(** [cache_object]: the separator is written when the path exists. *)
Definition cache_object (cache_file_path : string) (object_data : value)
    (fs : gmap string string) : gmap string string :=
  let add_new_line := bool_decide (is_Some (fs !! cache_file_path)) in
  <[cache_file_path :=
      default "" (fs !! cache_file_path)
      +:+ (if add_new_line then str1 newline else "")
      +:+ json_dumps object_data]> fs.

Section Pipeline.

(** The Keycloak server behind [api.post]: its state, and what a call
    answers, either a value tested for truth or a raised exception. *)
Variable server : Type.
Variable api_post : server -> string -> value -> server * result bool.

Record world : Type := World {
  files : gmap string string;
  srv : server;
  calls : list (string * value);
  console : list string
}.

(** State and exceptions: a computation maps a world to the world it
    leaves and what it returned or raised. *)
Definition M (A : Type) : Type := world -> world * result A.

Definition ret {A} (a : A) : M A := fun w => (w, Ret a).
Definition raise {A} (e : exn) : M A := fun w => (w, Raise e).
Definition bind {A B} (m : M A) (k : A -> M B) : M B :=
  fun w => match m w with
           | (w', Ret a) => k a w'
           | (w', Raise e) => (w', Raise e)
           end.
Definition lift {A} (r : result A) : M A := fun w => (w, r).

(** [try: m except ...: h]: the handler answers [None] for an exception no
    clause matches, which then goes on up. *)
Definition try_except {A} (m : M A) (h : exn -> option (M A)) : M A :=
  fun w => match m w with
           | (w', Ret a) => (w', Ret a)
           | (w', Raise e) =>
               match h e with
               | Some k => k w'
               | None => (w', Raise e)
               end
           end.

#[local] Instance M_ret : MRet M := @ret.
#[local] Instance M_bind : MBind M := fun A B k m => bind m k.

Definition on_files (f : gmap string string -> gmap string string) : M unit :=
  fun w => (World (f (files w)) (srv w) (calls w) (console w), Ret tt).

Definition print (line : string) : M unit :=
  fun w => (World (files w) (srv w) (calls w) (console w ++ [line]), Ret tt).

Definition path_exists (p : string) : M bool :=
  fun w => (w, Ret (bool_decide (is_Some (files w !! p)))).

(** [os.remove]: a missing file raises. *)
Definition os_remove (p : string) : M unit :=
  fun w => match files w !! p with
           | Some _ => (World (delete p (files w)) (srv w) (calls w) (console w), Ret tt)
           | None => (w, Raise (Exn FileNotFoundError
                                  ("[Errno 2] No such file or directory: "
                                   +:+ repr_string p)))
           end.

(** [api.post(object_type, value)]: the call is recorded, the server moves
    on and answers. *)
Definition post (object_type : string) (v : value) : M bool :=
  fun w => let '(s', r) := api_post (srv w) object_type v in
           (World (files w) s' (calls w ++ [(object_type, v)]) (console w), r).

(** *** [import_value] *)

(** A Python function that falls off its end returns [None]: the result is
    an optional tag. *)
Definition import_value (v : value)
    (object_type name_key log_file_path retry_cache_path : string)
    : M (option ImportResult) :=
  name ← lift (py_get v name_key);
  if negb (py_truthy name) then
    on_files (write_log_message log_file_path
                ("Name field missing from " +:+ py_str v +:+ ", skipping")) ;;
    on_files (cache_object retry_cache_path v) ;;
    ret (Some SKIPPED)
  else
    try_except
      (success ← post object_type v;
       if success : bool then ret (Some LOADED) else ret None)
      (fun e =>
         if isinstance e KeycloakConflictError then Some (
           on_files (write_log_message log_file_path
                       ("The " +:+ object_type +:+ " " +:+ py_str name
                        +:+ " already exists, cannot overwrite.")) ;;
           ret (Some EXISTS))
         else if is_Exception e then Some (
           on_files (write_log_message log_file_path
                       ("Failed to import " +:+ object_type +:+ " " +:+ py_str v
                        +:+ ", error was: " +:+ exn_str e)) ;;
           on_files (cache_object retry_cache_path v) ;;
           ret (Some FAILED))
         else None).

(** *** [populate_keycloak] *)

(** [process_map] with the workers taken one after the other, in the order
    of [values]; an exception leaving a worker leaves the map.  The results
    come in the order of [values], as the pool hands them over.  The other
    schedules of the pool, in which the calls and the appends of several
    records interleave, are not modelled: the theorems on a batch state
    what does not depend on the schedule. *)
Fixpoint process_map {A B} (f : A -> M B) (l : list A) : M (list B) :=
  match l with
  | [] => ret []
  | x :: l' => y ← f x; ys ← process_map f l'; ret (y :: ys)
  end.

(** The tally: one counter per tag, in the order FAILED, LOADED, EXISTS,
    SKIPPED. *)
Record report : Type := Report {
  failed_count : nat; loaded_count : nat; existing_count : nat; skipped_count : nat
}.

(** [report[result] += 1]: a result that is no key of the dict raises. *)
Definition count_result (r : report) (res : option ImportResult) : result report :=
  match res with
  | Some FAILED => Ret (Report (S (failed_count r)) (loaded_count r) (existing_count r) (skipped_count r))
  | Some LOADED => Ret (Report (failed_count r) (S (loaded_count r)) (existing_count r) (skipped_count r))
  | Some EXISTS => Ret (Report (failed_count r) (loaded_count r) (S (existing_count r)) (skipped_count r))
  | Some SKIPPED => Ret (Report (failed_count r) (loaded_count r) (existing_count r) (S (skipped_count r)))
  | None => Raise (Exn KeyError "None")
  end.

Fixpoint tally (r : report) (results : list (option ImportResult)) : result report :=
  match results with
  | [] => Ret r
  | res :: results' =>
      match count_result r res with
      | Ret r' => tally r' results'
      | Raise e => Raise e
      end
  end.

Definition summary (object_type retry_cache_path : string) (total : nat) (r : report) : string :=
  let cached_for_retry_count := (skipped_count r + failed_count r)%nat in
  let message :=
    "Imported " +:+ str_of_nat (loaded_count r) +:+ " out of " +:+ str_of_nat total
    +:+ " " +:+ object_type +:+ " objects. There were "
    +:+ str_of_nat (failed_count r) +:+ " failures." in
  let message :=
    if (0 <? skipped_count r)%nat then
      message +:+ str1 newline +:+ str_of_nat (skipped_count r) +:+ " " +:+ object_type
      +:+ " objects were skipped because their name field was missing or blank."
    else message in
  let message :=
    if (0 <? existing_count r)%nat then
      message +:+ str1 newline +:+ str_of_nat (existing_count r) +:+ " " +:+ object_type
      +:+ " objects were already in Keycloak and did not get overwritten."
    else message in
  if (0 <? cached_for_retry_count)%nat then
    message +:+ str1 newline +:+ "Rerun with '-f " +:+ retry_cache_path +:+ "' to retry "
    +:+ str_of_nat cached_for_retry_count +:+ " skipped or failed objects."
  else message.

Definition remove_if_exists (p note : string) : M unit :=
  e ← path_exists p;
  if e : bool then print note ;; os_remove p else ret tt.

Definition populate_keycloak (object_type : string) (values : list value)
    (name_key : string) : M unit :=
  print ("Starting " +:+ object_type +:+ " import.") ;;
  let log_file_path := abspath (object_type +:+ "_import.log") in
  remove_if_exists log_file_path "Removing previous log file." ;;
  let retry_cache_path := abspath (object_type +:+ "_retry_cache") in
  remove_if_exists retry_cache_path "Removing previous retry cache." ;;
  print ("Writing errors to " +:+ log_file_path +:+ ".") ;;
  print ("Importing " +:+ str_of_nat (length values) +:+ " " +:+ object_type
         +:+ " objects into Keycloak.") ;;
  results ← process_map
               (fun v => import_value v object_type name_key log_file_path retry_cache_path)
               values;
  r ← lift (tally (Report 0 0 0 0) results);
  let message := summary object_type retry_cache_path (length values) r in
  print message ;;
  on_files (write_log_message log_file_path message).

(** *** Discovery *)

(** Modelled from the spec: [usermigrate/db] ([Connection], [load_users])
    is not part of the sources at hand.  The discovery collaborator
    produces a sequence of rows, each converting to a record; what
    [discover] sees of it is the rows handed over before the connection,
    the query or a conversion raises, if one does. *)
Record database : Type := Database {
  db_rows : list value;
  db_failure : option exn
}.

Fixpoint cache_rows (cache_file_path : string) (rows : list value) : M unit :=
  match rows with
  | [] => ret tt
  | row :: rows' =>
      on_files (cache_object cache_file_path row) ;; cache_rows cache_file_path rows'
  end.

(** [discover]; [elapsed] is the number of seconds the clock measured. *)
Definition discover (db : database) (elapsed : nat) (cache_file_path : string)
    : M unit :=
  try_except
    (cache_rows cache_file_path (db_rows db) ;;
     match db_failure db with
     | Some e => raise e
     | None => ret tt
     end)
    (fun e =>
       if isinstance e ProgrammingError then Some (
         print ("Error connecting to the database: " +:+ exn_str e) ;; raise e)
       else if is_Exception e then Some (
         print ("User discovery failed: " +:+ exn_str e) ;; raise e)
       else None) ;;
  print ("Database query completed in " +:+ str_of_nat elapsed +:+ " seconds.") ;;
  print ("Created user cache at " +:+ cache_file_path).

(** *** [main] *)

(** What the command line, the terminal and the collaborators give a run:
    the options [-f] and [-k], what [check_connection] and the entry of the
    Keycloak session raise, if anything, the lines typed at the prompt, and
    the database. *)
Record run_input : Type := RunInput {
  file_input : option string;
  keycloak_url : string;
  check_connection : option exn;
  session_enter : option exn;
  answers : list string;
  db : database;
  elapsed : nat
}.

Definition lower_char (c : ascii) : ascii :=
  let n := N_of_ascii c in
  if ((65 <=? n) && (n <=? 90))%N then ascii_of_N (n + 32) else c.

Fixpoint lower (s : string) : string :=
  match s with
  | EmptyString => ""
  | String c s' => String (lower_char c) (lower s')
  end.

(** The prompt loop of lines 108-111: it asks until the answer is [y] or
    [n]; [input] raises at the end of the input. *)
Fixpoint ask_reuse (typed : list string) : M bool :=
  print ("Skip database discovery and import from cache? y/n" +:+ str1 newline) ;;
  match typed with
  | [] => raise (Exn EOFError "EOF when reading a line")
  | line :: typed' =>
      if String.eqb (lower line) "y" then ret true
      else if String.eqb (lower line) "n" then ret false
      else ask_reuse typed'
  end.

Definition str_truthy (o : option string) : bool :=
  match o with
  | Some s => negb (String.eqb s "")
  | None => false
  end.

Definition raise_if {A} (o : option exn) (a : A) : M A :=
  match o with
  | Some e => raise e
  | None => ret a
  end.

(** [json.loads] on each line in turn; the text of the decoding error is
    not modelled beyond its first words. *)
Fixpoint loads_lines (lines : list string) : result (list value) :=
  match lines with
  | [] => Ret []
  | line :: lines' =>
      match json_loads line with
      | Some v => rbind (loads_lines lines') (fun vs => Ret (v :: vs))
      | None => Raise (Exn JSONDecodeError "Expecting value")
      end
  end.

(** Lines 139-141: open the file and parse it line by line. *)
Definition read_users (path : string) : M (list value) :=
  fun w => match files w !! path with
           | None =>
               (w, Raise (Exn FileNotFoundError
                            ("[Errno 2] No such file or directory: "
                             +:+ repr_string path)))
           | Some text => (w, loads_lines (readlines text))
           end.

(** Lines 146-189: from the loaded users to the end of the two passes. *)
Definition main_import (inp : run_input) (users : list value) : M unit :=
  match users with
  | [] => print ("No users found." +:+ str1 newline +:+ "Nothing to do.")
  | _ :: _ =>
      print "Parsing groups from users..." ;;
      groups ← lift (derive_groups users);
      print (str_of_nat (length users) +:+ " users and "
             +:+ str_of_nat (length groups) +:+ " unique groups found.") ;;
      print "Starting import..." ;;
      try_except
        (raise_if (session_enter inp) tt ;;
         populate_keycloak "group" groups "name" ;;
         populate_keycloak "user" users "username")
        (fun e =>
           if isinstance e ConnectionError then Some (
             print ("Couldn't connect to Keycloak server '" +:+ keycloak_url inp
                    +:+ "'. Error was: " +:+ exn_str e))
           else if isinstance e KeycloakCommunicationError then Some (
             print (exn_str e))
           else if isinstance e KeycloakAuthenticationError then Some (
             print "")
           else None)
  end.

(** Lines 90-144: the connection check, the choice of the input and the
    reading of the users.  [None] is a [return] of [main] on the way.  The
    lines before, which load the user model and build the API object,
    touch nothing of the world and are left out. *)
Definition main_load (inp : run_input) : M (option (list value)) :=
  print ("Checking connection to Keycloak server at '" +:+ keycloak_url inp +:+ "'") ;;
  connected ← try_except
    (raise_if (check_connection inp) true)
    (fun e =>
       if isinstance e ConnectionError then Some (
         print ("Failed to connect to Keycloak server: " +:+ exn_str e) ;; ret false)
       else None);
  if negb connected then ret None else
  let cache_file_path := abspath "user_cache" in
  chosen ← (
    if str_truthy (file_input inp) then
      print ("Reading users from input file " +:+ default "" (file_input inp) +:+ "...") ;;
      ret (file_input inp)
    else
      cached ← path_exists cache_file_path;
      if cached : bool then
        print ("Found cached users at " +:+ cache_file_path +:+ ".") ;;
        reuse ← ask_reuse (answers inp);
        if reuse : bool then ret (Some cache_file_path)
        else print "Rediscovering." ;; ret (file_input inp)
      else ret (file_input inp));
  proceed ← (
    if str_truthy chosen then ret true
    else
      remove_if_exists cache_file_path "Removing old cache." ;;
      print "Discovering users from the database..." ;;
      try_except
        (discover (db inp) (elapsed inp) cache_file_path ;; ret true)
        (fun e =>
           if is_Exception e then Some (
             print "Cleaning up failed cache" ;;
             os_remove cache_file_path ;;
             ret false)
           else None));
  if negb proceed then ret None else
  let path := if str_truthy chosen then default "" chosen else cache_file_path in
  try_except
    (users ← read_users path; ret (Some users))
    (fun e =>
       if is_Exception e then Some (
         print ("Failed to load users from " +:+ path +:+ ": " +:+ exn_str e) ;;
         ret None)
       else None).

(** [main]: a [return] in the source ends the computation with [Ret tt];
    an exception no clause catches leaves [main] as [Raise]. *)
Definition main (inp : run_input) : M unit :=
  loaded ← main_load inp;
  match loaded with
  | None => ret tt
  | Some users => main_import inp users
  end.

End Pipeline.

Arguments World {server} _ _ _ _.
Arguments files {server} _.
Arguments srv {server} _.
Arguments calls {server} _.
Arguments console {server} _.
Arguments M : clear implicits.
Arguments ret {server A} _ _.
Arguments raise {server A} _ _.
Arguments bind {server A B} _ _ _.
Arguments lift {server A} _ _.
Arguments try_except {server A} _ _ _.
Arguments on_files {server} _ _.
Arguments print {server} _ _.
Arguments path_exists {server} _ _.
Arguments os_remove {server} _ _.
Arguments post {server} _ _ _ _.
Arguments import_value {server} _ _ _ _ _ _ _.
Arguments process_map {server A B} _ _ _.
Arguments remove_if_exists {server} _ _ _.
Arguments populate_keycloak {server} _ _ _ _ _.
Arguments cache_rows {server} _ _ _.
Arguments discover {server} _ _ _ _.
Arguments ask_reuse {server} _ _.
Arguments raise_if {server A} _ _ _.
Arguments read_users {server} _ _.
Arguments main_import {server} _ _ _ _.
Arguments main_load {server} _ _.
Arguments main {server} _ _ _.

(** * Vocabulary of the statements *)

(** ** Texts and lines *)

(** Every character of a text passes a test. *)
Fixpoint all_chars (p : ascii -> bool) (s : string) : bool :=
  match s with
  | EmptyString => true
  | String c s' => p c && all_chars p s'
  end.

(** A character that ends no line. *)
Definition inline_char (c : ascii) : bool :=
  negb (Ascii.eqb c newline) && negb (Ascii.eqb c creturn).

(** A character of the output of [json.dumps]: printable ASCII. *)
Definition printable_char (c : ascii) : bool :=
  ((32 <=? N_of_ascii c) && (N_of_ascii c <=? 126))%N.

(** ** Reading back what [json.dumps] wrote *)

(** What may follow a number without changing how it reads. *)
Definition follow_ok (rest : string) : bool :=
  match rest with
  | EmptyString => true
  | String c _ =>
      negb (is_digit c || Ascii.eqb c "." || Ascii.eqb c "e" || Ascii.eqb c "E")
  end.

(** The first character of a number. *)
Definition num_head (s : string) : bool :=
  match s with
  | String c _ => is_digit c || Ascii.eqb c "-"
  | EmptyString => false
  end.

(** No white space and no closing bracket at the head of a dumped value. *)
Definition value_head (s : string) : bool :=
  match s with
  | String c _ => negb (is_ws c || Ascii.eqb c "]" || Ascii.eqb c "}")
  | EmptyString => false
  end.

(** The fuel the scanner needs for a value. *)
Fixpoint fsize (v : value) : nat :=
  match v with
  | VList l => S (sum_list (map (fun x => S (fsize x)) l))
  | VDict d => S (sum_list (map (fun kv => S (fsize (snd kv))) d))
  | _ => 1
  end.

Definition member_text (kv : string * value) : string :=
  json_string (fst kv) +:+ ": " +:+ json_dumps (snd kv).

Definition reads_back (v : value) : Prop :=
  wf_value v = true ->
  forall n rest, (fsize v <= n)%nat -> follow_ok rest = true ->
    parse_value n (json_dumps v +:+ rest) = Some (v, rest).

(** ** The record store *)

(** The record store after a run of appends. *)
Definition append_all (path : string) (records : list value)
    (fs : gmap string string) : gmap string string :=
  foldl (fun fs r => cache_object path r fs) fs records.

(** The text of a cache after the first record: each later record on a
    line of its own. *)
Fixpoint more_lines (records : list value) : string :=
  match records with
  | [] => ""
  | r :: records' => String newline (json_dumps r +:+ more_lines records')
  end.

(** ** Group derivation *)

Definition as_str (v : value) : option string :=
  match v with
  | VStr s => Some s
  | _ => None
  end.

(** The group names of a user record whose ["groups"] field holds strings
    only; [None] for any other record. *)
Definition group_names (user : value) : option (list string) :=
  match rbind (py_getitem user "groups") py_iter with
  | Ret names => mapM as_str names
  | Raise _ => None
  end.

(** The record of a group. *)
Definition group_record (g : string) : value := VDict [("name", VStr g)].

Definition group_entry (g : string) : value * value := (VStr g, group_record g).

Definition add_name (seen : list string) (g : string) : list string :=
  if decide (g ∈ seen) then seen else seen ++ [g].

(** The names seen after the users, starting from [seen]. *)
Definition seen_after (seen : list string) (users : list value) : list string :=
  foldl (fun seen user => foldl add_name seen (default [] (group_names user))) seen users.

(** ** Runs *)

(** A computation is quiet when it leaves the server and the list of
    calls as they were. *)
Definition quiet {server A} (m : M server A) : Prop :=
  forall w, calls (m w).1 = calls w /\ srv (m w).1 = srv w.

(** ** Scenarios: servers, records and runs the statements are tried on *)

Definition raising_api (e : exn) : unit -> string -> value -> unit * result bool :=
  fun _ _ _ => (tt, Raise e).
Definition answering_api (success : bool) : unit -> string -> value -> unit * result bool :=
  fun _ _ _ => (tt, Ret success).
Definition empty_world : world unit := World ∅ tt [] [].
Definition alice : value :=
  VDict [("username", VStr "alice"); ("groups", VList [VStr "g1"])].
Definition nameless : value := VDict [("groups", VList [VStr "g1"])].
Definition auth_error : exn := Exn KeycloakAuthenticationError "401 Unauthorized".
Definition conflict_error : exn := Exn KeycloakConflictError "409 Conflict".
Definition server_error : exn := Exn KeycloakCommunicationError "500 Server Error".

Definition carol : value :=
  VDict [("username", VStr "carol"); ("groups", VList [VStr "g1"; VStr "g2"])].

Definition empty_cache_files : gmap string string := {["user_cache" := ""]}.

Definition failing_discovery_run : run_input :=
  RunInput None "https://keycloak" None None []
    (Database [] (Some (Exn ProgrammingError "connection refused"))) 0.

Definition users_file_run : run_input :=
  RunInput (Some "users.json") "https://keycloak" None None [] (Database [] None) 0.
Definition users_file_world (users : list value) : world unit :=
  World {["users.json" := join (str1 newline) (map json_dumps users)]} tt [] [].
Definition ungrouped : value := VDict [("username", VStr "bob")].

(** ** The batch and the run *)

(** A record the per-record procedure sends to the server: a dict whose
    name field is there and true. *)
Definition named (name_key : string) (v : value) : bool :=
  match py_get v name_key with
  | Ret name => py_truthy name
  | Raise _ => false
  end.

(** An outcome that puts the record in the retry cache. *)
Definition retried (res : option ImportResult) : bool :=
  match res with
  | Some SKIPPED | Some FAILED => true
  | _ => false
  end.

Definition retried_result (r : result (option ImportResult)) : bool :=
  match r with
  | Ret res => retried res
  | Raise _ => false
  end.

(** The log after some lines more. *)
Definition log_lines (log_file_path : string) (lines : list string)
    (fs : gmap string string) : gmap string string :=
  foldl (fun fs line => write_log_message log_file_path line fs) fs lines.


Definition is_dict (v : value) : bool :=
  match v with
  | VDict _ => true
  | _ => false
  end.

(** [new] is [old] with something written after it. *)
Definition extends (old new : string) : Prop := exists more, new = old +:+ more.

(** No file was removed or cut short: every file of [fs] is in [fs'] with
    its text still at the head. *)
Definition grown (fs fs' : gmap string string) : Prop :=
  forall p text, fs !! p = Some text -> exists text', fs' !! p = Some text' /\ extends text text'.

(** Line 285: [partial(import_value, **loop_kwargs)]. *)
Definition loop_function {server : Type}
    (api_post : server -> string -> value -> server * result bool)
    (object_type name_key log_file_path retry_cache_path : string) (v : value)
    : M server (option ImportResult) :=
  import_value api_post v object_type name_key log_file_path retry_cache_path.

(** How often a tag occurs among the results of a batch. *)
Definition occurrences (tag : ImportResult) (results : list (option ImportResult)) : nat :=
  length (List.filter (fun res => bool_decide (res = Some tag)) results).

Definition log_path (object_type : string) : string := object_type +:+ "_import.log".
Definition retry_path (object_type : string) : string := object_type +:+ "_retry_cache".

(** Two worlds with the same files and the same server. *)
Definition same_state {server : Type} (w1 w2 : world server) : Prop :=
  files w1 = files w2 /\ srv w1 = srv w2.

(** A line typed at the prompt that answers it. *)
Definition is_answer (line : string) : bool :=
  String.eqb (lower line) "y" || String.eqb (lower line) "n".

(** The answer the prompt loop ends with: that of the first line that is
    one, if any. *)
Fixpoint first_answer (typed : list string) : option bool :=
  match typed with
  | [] => None
  | line :: typed' =>
      if is_answer line then Some (String.eqb (lower line) "y")
      else first_answer typed'
  end.

(** How often the prompt is shown. *)
Fixpoint prompts (typed : list string) : nat :=
  match typed with
  | [] => 1
  | line :: typed' => if is_answer line then 1 else S (prompts typed')
  end.

Definition reuse_prompt : string :=
  "Skip database discovery and import from cache? y/n" +:+ str1 newline.

(** Two runs given the same options, whatever the database, the clock and
    the terminal give them. *)
Definition same_options (inp inp' : run_input) : Prop :=
  file_input inp = file_input inp'
  /\ keycloak_url inp = keycloak_url inp'
  /\ check_connection inp = check_connection inp'
  /\ session_enter inp = session_enter inp'.

(** A value that is neither a list nor a dict. *)
Definition scalar (v : value) : bool :=
  match v with
  | VNone | VBool _ | VInt _ | VStr _ => true
  | VList _ | VDict _ => false
  end.

(** A user record with groups to derive from: a dict whose ["groups"]
    field is a list of scalars, a string or a dict. *)
Definition has_groups (user : value) : bool :=
  match user with
  | VDict d =>
      match dict_get d "groups" with
      | Some (VList names) => forallb scalar names
      | Some (VStr _) | Some (VDict _) => true
      | _ => false
      end
  | _ => false
  end.

(** A dict without a ["groups"] field. *)
Definition lacks_groups (user : value) : bool :=
  match user with
  | VDict d =>
      match dict_get d "groups" with
      | None => true
      | Some _ => false
      end
  | _ => false
  end.

(** A line at which no JSON value starts: after the white space it is at
    its end, or at a character other than a quote, a bracket, a brace, a
    minus sign, a digit, or the first letter of [true], [false], [null],
    [NaN] and [Infinity]. *)
Definition starts_no_value (line : string) : bool :=
  match skip_ws line with
  | EmptyString => true
  | String c _ => negb (string_mem c (String dquote "{[-0123456789tfnNI"))
  end.

(** An exception one of the three clauses of [main] (lines 178-189)
    catches. *)
Definition handled_by_main (e : exn) : bool :=
  isinstance e ConnectionError
  || isinstance e KeycloakCommunicationError
  || isinstance e KeycloakAuthenticationError.

(** ** More scenarios *)

Definition interrupt : exn := Exn KeyboardInterrupt "".
Definition query_error : exn := Exn ProgrammingError "relation does not exist".
Definition stale_world : world unit :=
  World {["user_import.log" := "old line" +:+ str1 newline;
          "user_retry_cache" := json_dumps carol]} tt [] [].
Definition cached_world : world unit :=
  World {["user_cache" := json_dumps alice]} tt [] [].
Definition broken_file_world : world unit :=
  World {["users.json" := json_dumps alice +:+ str1 newline +:+ str1 newline
                          +:+ json_dumps carol]} tt [] [].
Definition discovery_run (rows : list value) (failure : option exn)
    (typed : list string) : run_input :=
  RunInput None "https://keycloak" None None typed (Database rows failure) 3.

(** * Properties *)

(** ** Texts *)

Lemma string_app_cons c (s t : string) : String c s +:+ t = String c (s +:+ t).
Proof. reflexivity. Qed.

Lemma string_app_nil_l (s : string) : "" +:+ s = s.
Proof. reflexivity. Qed.

Lemma string_app_nil_r (s : string) : s +:+ "" = s.
Proof. induction s as [|c s IH]; [done|]. by rewrite string_app_cons, IH. Qed.

Lemma string_app_assoc (s t u : string) : (s +:+ t) +:+ u = s +:+ t +:+ u.
Proof. induction s as [|c s IH]; [done|]. by rewrite !string_app_cons, IH. Qed.

Lemma string_length_app (s t : string) :
  String.length (s +:+ t) = (String.length s + String.length t)%nat.
Proof. induction s as [|c s IH]; [done|]. rewrite string_app_cons. simpl. by rewrite IH. Qed.

Lemma all_chars_app p (s t : string) :
  all_chars p (s +:+ t) = all_chars p s && all_chars p t.
Proof.
  induction s as [|c s IH]; [done|].
  rewrite string_app_cons. simpl. by rewrite IH, andb_assoc.
Qed.

Lemma all_chars_join p sep (l : list string) :
  all_chars p sep = true -> Forall (fun s => all_chars p s = true) l ->
  all_chars p (join sep l) = true.
Proof.
  intros Hsep Hl. induction Hl as [|s l Hs Hl IH]; [done|].
  destruct l as [|s' l]; [done|].
  change (join sep (s :: s' :: l)) with (s +:+ sep +:+ join sep (s' :: l)).
  by rewrite !all_chars_app, Hs, Hsep, IH.
Qed.

Lemma all_chars_concat_map p f (s : string) :
  (forall c, all_chars p (f c) = true) -> all_chars p (concat_map f s) = true.
Proof.
  intros Hf. induction s as [|c s IH]; [done|].
  simpl. by rewrite all_chars_app, Hf, IH.
Qed.

Lemma printable_inline (s : string) :
  all_chars printable_char s = true -> all_chars inline_char s = true.
Proof.
  induction s as [|c s IH]; [done|]. simpl.
  intros [Hc Hs]%andb_prop. rewrite IH by done. rewrite andb_true_r.
  revert Hc. destruct c as [[] [] [] [] [] [] [] []]; by vm_compute.
Qed.

Lemma printable_escape c : all_chars printable_char (json_escape_char c) = true.
Proof. destruct c as [[] [] [] [] [] [] [] []]; by vm_compute. Qed.

Lemma printable_uint d : all_chars printable_char (NilEmpty.string_of_uint d) = true.
Proof. induction d; simpl; auto. Qed.

Lemma printable_str_of_Z z : all_chars printable_char (str_of_Z z) = true.
Proof.
  unfold str_of_Z, NilZero.string_of_int, NilZero.string_of_uint.
  destruct z as [|p|p]; simpl; [done|..];
    pose proof (printable_uint (Pos.to_uint p));
    by destruct (Pos.to_uint p).
Qed.

Lemma printable_json_string s : all_chars printable_char (json_string s) = true.
Proof.
  unfold json_string. simpl. rewrite all_chars_app.
  by rewrite all_chars_concat_map by apply printable_escape.
Qed.

(** Induction on records, with the items of lists and dicts at hand. *)
Lemma value_nested_ind (P : value -> Prop) :
  P VNone -> (forall b, P (VBool b)) -> (forall z, P (VInt z)) ->
  (forall s, P (VStr s)) ->
  (forall l, Forall P l -> P (VList l)) ->
  (forall d, Forall (fun kv => P (snd kv)) d -> P (VDict d)) ->
  forall v, P v.
Proof.
  intros HNone HBool HInt HStr HList HDict.
  fix IH 1. intros [| b | z | s | l | d].
  - exact HNone.
  - apply HBool.
  - apply HInt.
  - apply HStr.
  - apply HList. induction l as [|v l IHl]; constructor; [apply IH|exact IHl].
  - apply HDict. induction d as [|[k v] d IHd]; constructor; [apply IH|exact IHd].
Qed.

Lemma printable_json_dumps v : all_chars printable_char (json_dumps v) = true.
Proof.
  induction v as [| [] | z | s | l IHl | d IHd] using value_nested_ind;
    try done.
  - apply printable_str_of_Z.
  - apply printable_json_string.
  - simpl. rewrite !all_chars_app. simpl. rewrite andb_true_r.
    apply all_chars_join; [done|]. by apply Forall_map.
  - simpl. rewrite !all_chars_app. simpl. rewrite andb_true_r.
    apply all_chars_join; [done|]. apply Forall_map.
    eapply Forall_impl; [exact IHd|]. intros [k x] Hx. cbn [fst snd] in *.
    rewrite !all_chars_app, printable_json_string, Hx. done.
Qed.

(** [json.dumps] writes one line: no character of it ends a line. *)
Lemma json_dumps_one_line v : all_chars inline_char (json_dumps v) = true.
Proof. apply printable_inline, printable_json_dumps. Qed.

Lemma json_dumps_nonempty v : json_dumps v <> "".
Proof.
  destruct v as [| [] | z | s | l | d]; try done.
  unfold json_dumps, str_of_Z, NilZero.string_of_int, NilZero.string_of_uint.
  destruct z as [|p|p]; simpl; try done.
  pose proof (DecimalPos.Unsigned.to_uint_nonnil p).
  by destruct (Pos.to_uint p).
Qed.

(** ** Lines *)

Lemma readlines_line (d rest : string) :
  all_chars inline_char d = true ->
  readlines (d +:+ String newline rest) = (d +:+ str1 newline) :: readlines rest.
Proof.
  induction d as [|c d IH]; [done|].
  simpl. intros [Hc Hd]%andb_prop. rewrite string_app_cons. simpl.
  unfold inline_char in Hc. apply andb_prop in Hc as [Hn Hr].
  apply negb_true_iff in Hn, Hr. rewrite Hn, Hr. by rewrite IH.
Qed.

Lemma readlines_last (d : string) :
  all_chars inline_char d = true -> d <> "" -> readlines d = [d].
Proof.
  induction d as [|c d IH]; [done|].
  simpl. intros [Hc Hd]%andb_prop _.
  unfold inline_char in Hc. apply andb_prop in Hc as [Hn Hr].
  apply negb_true_iff in Hn, Hr. rewrite Hn, Hr.
  destruct d as [|c' d]; [done|]. by rewrite IH.
Qed.

(** ** The per-record import procedure *)

Ltac run_M :=
  unfold mbind, M_bind, mret, M_ret, bind, lift, ret, raise, try_except,
    on_files, print, post, path_exists in *; simpl in *.

Lemma cache_object_lookup path v (fs : gmap string string) :
  cache_object path v fs !! path =
  Some (default "" (fs !! path)
        +:+ (if bool_decide (is_Some (fs !! path)) then str1 newline else "")
        +:+ json_dumps v).
Proof. unfold cache_object. by rewrite lookup_insert_eq. Qed.

Lemma cache_object_lookup_ne path p v (fs : gmap string string) :
  path ≠ p → cache_object path v fs !! p = fs !! p.
Proof. intros. unfold cache_object. by rewrite lookup_insert_ne. Qed.

Lemma write_log_message_lookup path msg (fs : gmap string string) :
  write_log_message path msg fs !! path =
  Some (default "" (fs !! path) +:+ msg +:+ str1 newline).
Proof. unfold write_log_message. by rewrite lookup_insert_eq. Qed.

Lemma write_log_message_lookup_ne path p msg (fs : gmap string string) :
  path ≠ p → write_log_message path msg fs !! p = fs !! p.
Proof. intros. unfold write_log_message. by rewrite lookup_insert_ne. Qed.

Section ImportValue.
Context {server : Type} (api_post : server -> string -> value -> server * result bool).
Implicit Types (v name : value) (w : world server) (e : exn).
Implicit Types (object_type name_key log_file_path retry_cache_path : string).

(** The three ways out of the [try] block, one lemma each. *)

Lemma import_value_caught v object_type name_key log_file_path retry_cache_path w name s' e :
  py_get v name_key = Ret name -> py_truthy name = true ->
  api_post (srv w) object_type v = (s', Raise e) ->
  isinstance e KeycloakConflictError = false -> is_Exception e = true ->
  import_value api_post v object_type name_key log_file_path retry_cache_path w =
  (World
     (cache_object retry_cache_path v
        (write_log_message log_file_path
           ("Failed to import " +:+ object_type +:+ " " +:+ py_str v
            +:+ ", error was: " +:+ exn_str e)
           (files w)))
     s' (calls w ++ [(object_type, v)]) (console w),
   Ret (Some FAILED)).
Proof.
  intros Hget Hname Hpost Hconf Hexc. unfold import_value. run_M.
  rewrite Hget, Hname. simpl. rewrite Hpost, Hconf, Hexc. reflexivity.
Qed.

Lemma import_value_falsy v object_type name_key log_file_path retry_cache_path w name s' :
  py_get v name_key = Ret name -> py_truthy name = true ->
  api_post (srv w) object_type v = (s', Ret false) ->
  import_value api_post v object_type name_key log_file_path retry_cache_path w =
  (World (files w) s' (calls w ++ [(object_type, v)]) (console w), Ret None).
Proof.
  intros Hget Hname Hpost. unfold import_value. run_M.
  rewrite Hget, Hname. simpl. rewrite Hpost. reflexivity.
Qed.

(** C3.  For every record whose value at the name-field key is absent or
    empty (falsy: [None], the empty string, an empty list or dict, zero,
    [False]), [import_value] returns [SKIPPED], writes a log line and then
    appends the record to the retry cache, and issues no call to the
    Remote API Client: the calls and the server are as before.  With the
    log and the retry cache at two paths, as [populate_keycloak] has them,
    the log afterwards is its former text and the line, the retry cache
    its former text, the separator if the file was there, and the record;
    no other file changes. *)
Theorem import_value_skips_unnamed d object_type name_key log_file_path retry_cache_path w :
  py_truthy (default VNone (dict_get d name_key)) = false ->
  exists w',
    import_value api_post (VDict d) object_type name_key log_file_path retry_cache_path w
    = (w', Ret (Some SKIPPED))
    /\ files w' =
       cache_object retry_cache_path (VDict d)
         (write_log_message log_file_path
            ("Name field missing from " +:+ py_str (VDict d) +:+ ", skipping")
            (files w))
    /\ calls w' = calls w /\ srv w' = srv w
    /\ (forall p, p <> log_file_path -> p <> retry_cache_path ->
                  files w' !! p = files w !! p)
    /\ (log_file_path <> retry_cache_path ->
        files w' !! log_file_path
        = Some (default "" (files w !! log_file_path)
                +:+ ("Name field missing from " +:+ py_str (VDict d) +:+ ", skipping")
                +:+ str1 newline)
        /\ files w' !! retry_cache_path
           = Some (default "" (files w !! retry_cache_path)
                   +:+ (if bool_decide (is_Some (files w !! retry_cache_path))
                        then str1 newline else "")
                   +:+ json_dumps (VDict d))).
Proof.
  intros Hname. eexists. split.
  - unfold import_value. run_M. rewrite Hname. reflexivity.
  - cbn [files srv calls]. split_and!; try done.
    + intros p Hlog Hretry.
      rewrite cache_object_lookup_ne, write_log_message_lookup_ne by done. done.
    + intros Hne. split.
      * rewrite cache_object_lookup_ne by done. apply write_log_message_lookup.
      * rewrite cache_object_lookup. by rewrite write_log_message_lookup_ne.
Qed.

(** C4.  For every record for which the Remote API Client raises a
    Conflict condition, [import_value] returns [EXISTS] and the retry cache
    is left as it was: the log line is all that is written. *)
Theorem import_value_conflict_exists
    v object_type name_key log_file_path retry_cache_path w name s' e :
  py_get v name_key = Ret name -> py_truthy name = true ->
  api_post (srv w) object_type v = (s', Raise e) ->
  isinstance e KeycloakConflictError = true ->
  log_file_path <> retry_cache_path ->
  exists w',
    import_value api_post v object_type name_key log_file_path retry_cache_path w
    = (w', Ret (Some EXISTS))
    /\ files w' !! retry_cache_path = files w !! retry_cache_path
    /\ files w' =
       write_log_message log_file_path
         ("The " +:+ object_type +:+ " " +:+ py_str name
          +:+ " already exists, cannot overwrite.") (files w).
Proof.
  intros Hget Hname Hpost Hconf Hne. eexists. split.
  - unfold import_value. run_M. rewrite Hget, Hname. simpl.
    rewrite Hpost, Hconf. reflexivity.
  - simpl. split; [|reflexivity]. by apply write_log_message_lookup_ne.
Qed.

(** C5.  For every record for which the Remote API Client raises an error
    that is neither a Conflict nor an Authentication condition,
    [import_value] returns [FAILED] and the retry cache afterwards is its
    former text followed by the record, once. *)
Theorem import_value_error_failed
    v object_type name_key log_file_path retry_cache_path w name s' e :
  py_get v name_key = Ret name -> py_truthy name = true ->
  api_post (srv w) object_type v = (s', Raise e) ->
  is_Exception e = true ->
  isinstance e KeycloakConflictError = false ->
  isinstance e KeycloakAuthenticationError = false ->
  log_file_path <> retry_cache_path ->
  exists w',
    import_value api_post v object_type name_key log_file_path retry_cache_path w
    = (w', Ret (Some FAILED))
    /\ files w' !! retry_cache_path =
       Some (default "" (files w !! retry_cache_path)
             +:+ (if bool_decide (is_Some (files w !! retry_cache_path))
                  then str1 newline else "")
             +:+ json_dumps v).
Proof.
  intros Hget Hname Hpost Hexc Hconf _ Hne. eexists. split.
  - by eapply import_value_caught.
  - simpl. rewrite cache_object_lookup.
    by rewrite write_log_message_lookup_ne.
Qed.

(** C1, as the code has it.  When the Remote API Client raises an
    Authentication condition for a record, [import_value] catches it in its
    [except Exception] clause like any other error: it writes the failure
    to the log, appends the record to the retry cache and returns [FAILED],
    and the batch goes on with the records that remain.  With the log and
    the retry cache at two paths, as [populate_keycloak] has them, the log
    afterwards is its former text and the line of the failure, the retry
    cache its former text, the separator if the file was there, and the
    record; no other file changes. *)
Theorem import_value_authentication_failed
    v object_type name_key log_file_path retry_cache_path w name s' e :
  py_get v name_key = Ret name -> py_truthy name = true ->
  api_post (srv w) object_type v = (s', Raise e) ->
  isinstance e KeycloakAuthenticationError = true ->
  exists w',
    import_value api_post v object_type name_key log_file_path retry_cache_path w
    = (w', Ret (Some FAILED))
    /\ files w' =
       cache_object retry_cache_path v
         (write_log_message log_file_path
            ("Failed to import " +:+ object_type +:+ " " +:+ py_str v
             +:+ ", error was: " +:+ exn_str e) (files w))
    /\ (forall rest,
         process_map
           (fun x => import_value api_post x object_type name_key log_file_path retry_cache_path)
           (v :: rest) w
         = match process_map
                   (fun x => import_value api_post x object_type name_key
                               log_file_path retry_cache_path) rest w' with
           | (w'', Ret results) => (w'', Ret (Some FAILED :: results))
           | (w'', Raise e') => (w'', Raise e')
           end)
    /\ (forall p, p <> log_file_path -> p <> retry_cache_path ->
                  files w' !! p = files w !! p)
    /\ (log_file_path <> retry_cache_path ->
        files w' !! log_file_path
        = Some (default "" (files w !! log_file_path)
                +:+ ("Failed to import " +:+ object_type +:+ " " +:+ py_str v
                     +:+ ", error was: " +:+ exn_str e)
                +:+ str1 newline)
        /\ files w' !! retry_cache_path
           = Some (default "" (files w !! retry_cache_path)
                   +:+ (if bool_decide (is_Some (files w !! retry_cache_path))
                        then str1 newline else "")
                   +:+ json_dumps v)).
Proof.
  intros Hget Hname Hpost Hauth.
  assert (Hc : isinstance e KeycloakConflictError = false /\ is_Exception e = true).
  { unfold isinstance, is_Exception in *. destruct e as [c m]. simpl in *.
    destruct c; try discriminate; by vm_compute. }
  destruct Hc as [Hconf Hexc].
  eexists. split; [by eapply import_value_caught|].
  split; [reflexivity|]. split; [|cbn [files]; split].
  - intros rest. simpl. run_M.
    rewrite (import_value_caught _ _ _ _ _ _ _ _ _ Hget Hname Hpost Hconf Hexc).
    by destruct (process_map _ rest _) as [w'' [results|e']].
  - intros p Hlog Hretry.
    rewrite cache_object_lookup_ne, write_log_message_lookup_ne by done. done.
  - intros Hne. split.
    + rewrite cache_object_lookup_ne by done. apply write_log_message_lookup.
    + rewrite cache_object_lookup. by rewrite write_log_message_lookup_ne.
Qed.

End ImportValue.

Lemma import_value_authentication_failed_witness :
  exists w',
    import_value (raising_api auth_error) alice "user" "username"
      "user_import.log" "user_retry_cache" empty_world = (w', Ret (Some FAILED))
    /\ files w' !! "user_import.log"
       = Some ("Failed to import user {'username': 'alice', 'groups': ['g1']}, "
               +:+ "error was: 401 Unauthorized" +:+ str1 newline)
    /\ files w' !! "user_retry_cache" = Some (json_dumps alice).
Proof.
  destruct (import_value_authentication_failed (raising_api auth_error) alice "user" "username"
              "user_import.log" "user_retry_cache" empty_world (VStr "alice") tt auth_error)
    as (w' & H & _ & _ & _ & Hfiles); [reflexivity..|].
  destruct Hfiles as [Hlog Hretry]; [discriminate|].
  exists w'. split; [exact H|]. split; [exact Hlog|exact Hretry].
Defined.

(** C1 as stated fails: the client raises an Authentication condition for
    [alice], and [import_value] returns [FAILED] where the claim has the
    condition leave the worker. *)
Lemma authentication_not_propagated :
  raising_api auth_error tt "user" alice = (tt, Raise auth_error) /\
  isinstance auth_error KeycloakAuthenticationError = true /\
  snd (import_value (raising_api auth_error) alice "user" "username"
         "user_import.log" "user_retry_cache" empty_world) = Ret (Some FAILED) /\
  snd (import_value (raising_api auth_error) alice "user" "username"
         "user_import.log" "user_retry_cache" empty_world) <> Raise auth_error.
Proof. repeat split; try reflexivity. discriminate. Qed.

(** C2 at its failing input.  The client answers without raising and with
    a value that is not true: [import_value] falls off its end and returns
    [None], no tag at all, and the tally of [populate_keycloak] then raises
    [KeyError]. *)
Theorem import_value_falsy_success_returns_None :
  snd (import_value (answering_api false) alice "user" "username"
         "user_import.log" "user_retry_cache" empty_world) = Ret None /\
  snd (populate_keycloak (answering_api false) "user" [alice] "username" empty_world)
  = Raise (Exn KeyError "None").
Proof. split; reflexivity. Qed.

(** ** Discovery *)

Lemma cache_object_is_Some path v (fs : gmap string string) :
  is_Some (cache_object path v fs !! path).
Proof. rewrite cache_object_lookup. eauto. Qed.

Lemma append_all_is_Some path records (fs : gmap string string) :
  records <> [] \/ is_Some (fs !! path) -> is_Some (append_all path records fs !! path).
Proof.
  revert fs. induction records as [|r records IH]; intros fs H; simpl.
  - by destruct H.
  - apply IH. right. apply cache_object_is_Some.
Qed.

Section Discovery.
Context {server : Type} (api_post : server -> string -> value -> server * result bool).

Lemma cache_rows_spec path rows (w : world server) :
  cache_rows path rows w =
  (World (append_all path rows (files w)) (srv w) (calls w) (console w), Ret tt).
Proof.
  revert w. induction rows as [|row rows IH]; intros w; simpl.
  - by destruct w.
  - run_M. by rewrite IH.
Qed.

Lemma main_discovery_failure inp (w : world server) e :
  check_connection inp = None -> str_truthy (file_input inp) = false ->
  files w !! "user_cache" = None ->
  db_failure (db inp) = Some e -> is_Exception e = true ->
  exists w',
    main api_post inp w =
    (w', match db_rows (db inp) with
         | [] => Raise (Exn FileNotFoundError
                          ("[Errno 2] No such file or directory: "
                           +:+ repr_string "user_cache"))
         | _ :: _ => Ret tt
         end)
    /\ files w' !! "user_cache" = None.
Proof.
  intros Hconn Hfile Hcache Hfail Hexc.
  unfold main, main_load, discover, remove_if_exists, abspath. run_M.
  rewrite Hconn. simpl. rewrite Hfile. cbn [files srv calls console].
  rewrite Hcache. rewrite bool_decide_eq_false_2 by (intros [? [=]]).
  rewrite Hfile. cbn [files srv calls console].
  rewrite Hcache. rewrite bool_decide_eq_false_2 by (intros [? [=]]).
  rewrite cache_rows_spec. cbn [files srv calls console]. rewrite Hfail.
  destruct (isinstance e ProgrammingError);
    repeat (rewrite Hexc; cbn [files srv calls console]);
    unfold os_remove; cbn [files srv calls console].
  all: destruct (db_rows (db inp)) as [|row rows] eqn:Hrows.
  - unfold append_all; cbn [foldl]; rewrite Hcache.
    eexists; split; [reflexivity|exact Hcache].
  - destruct (append_all_is_Some "user_cache" (row :: rows) (files w))
      as [text Htext]; [by left|]. rewrite Htext.
    eexists; split; [reflexivity|cbn [files]; apply lookup_delete_eq].
  - unfold append_all; cbn [foldl]; rewrite Hcache.
    eexists; split; [reflexivity|exact Hcache].
  - destruct (append_all_is_Some "user_cache" (row :: rows) (files w))
      as [text Htext]; [by left|]. rewrite Htext.
    eexists; split; [reflexivity|cbn [files]; apply lookup_delete_eq].
Qed.

End Discovery.

(** C9 at its failing input.  Discovery raises before it wrote any row:
    the clean-up of [main] removes a cache file that is not there, and the
    run ends in an uncaught [FileNotFoundError] where the claim has it
    abort cleanly.  No cache file is left. *)
Theorem discovery_failure_before_first_row_raises :
  exists w',
    main (answering_api true) failing_discovery_run empty_world =
    (w', Raise (Exn FileNotFoundError
                  "[Errno 2] No such file or directory: 'user_cache'"))
    /\ files w' !! "user_cache" = None.
Proof. eexists. split; reflexivity. Qed.

(** ** Group derivation fails on a record without groups *)

Lemma derive_loop_missing_groups users d groups :
  In (VDict d) users -> dict_get d "groups" = None ->
  exists e, derive_loop users groups = Raise e.
Proof.
  intros Hin Hd. revert groups. induction users as [|user users IH]; intros groups.
  - destruct Hin.
  - simpl. destruct Hin as [->|Hin].
    + simpl. rewrite Hd. simpl. eauto.
    + destruct (py_getitem user "groups") as [gs|e]; simpl; [|eauto].
      destruct (py_iter gs) as [names|e]; simpl; [|eauto].
      destruct (add_groups names groups) as [groups'|e]; simpl; [|eauto].
      by apply IH.
Qed.

Lemma derive_groups_missing_groups users d :
  In (VDict d) users -> dict_get d "groups" = None ->
  exists e, derive_groups users = Raise e.
Proof.
  intros Hin Hd. destruct (derive_loop_missing_groups users d [] Hin Hd) as [e He].
  exists e. unfold derive_groups. by rewrite He.
Qed.

Section Main.
Context {server : Type} (api_post : server -> string -> value -> server * result bool).

Lemma quiet_ret {A} (a : A) : @quiet server A (ret a).
Proof. by intros w. Qed.
Lemma quiet_raise {A} e : quiet (@raise server A e).
Proof. by intros w. Qed.
Lemma quiet_lift {A} (r : result A) : @quiet server A (lift r).
Proof. by intros w. Qed.
Lemma quiet_print line : quiet (@print server line).
Proof. by intros w. Qed.
Lemma quiet_on_files f : quiet (@on_files server f).
Proof. by intros w. Qed.
Lemma quiet_path_exists p : quiet (@path_exists server p).
Proof. by intros w. Qed.
Lemma quiet_os_remove p : quiet (@os_remove server p).
Proof. intros w. unfold os_remove. by destruct (files w !! p). Qed.
Lemma quiet_read_users p : quiet (@read_users server p).
Proof. intros w. unfold read_users. by destruct (files w !! p). Qed.

Lemma quiet_bind {A B} (m : M server A) (k : A -> M server B) :
  quiet m -> (forall a, quiet (k a)) -> quiet (bind m k).
Proof.
  intros Hm Hk w. unfold bind. specialize (Hm w).
  destruct (m w) as [w' [a|e]]; simpl in *; [|done].
  destruct (Hk a w') as [-> ->]. done.
Qed.

Lemma quiet_try {A} (m : M server A) h :
  quiet m -> (forall e k, h e = Some k -> quiet k) -> quiet (try_except m h).
Proof.
  intros Hm Hh w. unfold try_except. specialize (Hm w).
  destruct (m w) as [w' [a|e]]; simpl in *; [done|].
  destruct (h e) as [k|] eqn:He; [|done].
  destruct (Hh e k He w') as [-> ->]. done.
Qed.

Lemma quiet_if {A} (b : bool) (m1 m2 : M server A) :
  quiet m1 -> quiet m2 -> quiet (if b then m1 else m2).
Proof. by destruct b. Qed.

Lemma quiet_raise_if {A} o (a : A) : quiet (@raise_if server A o a).
Proof. destruct o; [apply quiet_raise | apply quiet_ret]. Qed.

Lemma quiet_ask_reuse typed : quiet (@ask_reuse server typed).
Proof.
  induction typed as [|line typed IH]; simpl;
    (apply quiet_bind; [apply quiet_print|intros _]).
  - apply quiet_raise.
  - repeat apply quiet_if; auto using quiet_ret.
Qed.

Lemma quiet_remove_if_exists p note : quiet (@remove_if_exists server p note).
Proof.
  apply quiet_bind; [apply quiet_path_exists|intros b].
  apply quiet_if; [|apply quiet_ret].
  apply quiet_bind; [apply quiet_print|intros _; apply quiet_os_remove].
Qed.

Lemma quiet_cache_rows p rows : quiet (@cache_rows server p rows).
Proof.
  induction rows as [|row rows IH]; simpl; [apply quiet_ret|].
  apply quiet_bind; [apply quiet_on_files|done].
Qed.

Create HintDb quiet.
Local Hint Resolve quiet_ret quiet_raise quiet_lift quiet_print quiet_on_files
  quiet_path_exists quiet_os_remove quiet_read_users quiet_raise_if
  quiet_ask_reuse quiet_remove_if_exists quiet_cache_rows : quiet.

Ltac quiet_step :=
  first
    [ apply quiet_bind; [|intros ?]
    | apply quiet_try; [|intros ? ? ?]
    | apply quiet_if
    | solve [auto with quiet] ].

Lemma quiet_discover db elapsed p : quiet (@discover server db elapsed p).
Proof.
  unfold discover.
  apply quiet_bind; [|intros _; repeat quiet_step].
  apply quiet_try.
  - apply quiet_bind; [auto with quiet|intros _]. destruct (db_failure db); auto with quiet.
  - intros e k Hk.
    destruct (isinstance e ProgrammingError); [injection Hk as <-; repeat quiet_step|].
    destruct (is_Exception e); [injection Hk as <-; repeat quiet_step|done].
Qed.

Lemma quiet_main_load inp : @quiet server _ (main_load inp).
Proof.
  unfold main_load.
  apply quiet_bind; [auto with quiet|intros _].
  apply quiet_bind.
  { apply quiet_try; [auto with quiet|]. intros e k Hk.
    destruct (isinstance e ConnectionError); [injection Hk as <-; repeat quiet_step|done]. }
  intros connected. apply quiet_if; [auto with quiet|].
  apply quiet_bind.
  { apply quiet_if; [repeat quiet_step|].
    apply quiet_bind; [auto with quiet|intros cached].
    apply quiet_if; [|auto with quiet].
    apply quiet_bind; [auto with quiet|intros _].
    apply quiet_bind; [auto with quiet|intros reuse].
    apply quiet_if; repeat quiet_step. }
  intros chosen. apply quiet_bind.
  { apply quiet_if; [auto with quiet|].
    apply quiet_bind; [auto with quiet|intros _].
    apply quiet_bind; [auto with quiet|intros _].
    apply quiet_try.
    - apply quiet_bind; [apply quiet_discover|intros _; auto with quiet].
    - intros e k Hk.
      destruct (is_Exception e); [injection Hk as <-; repeat quiet_step|done]. }
  intros proceed. apply quiet_if; [auto with quiet|].
  apply quiet_try; [repeat quiet_step|].
  intros e k Hk.
  destruct (is_Exception e); [injection Hk as <-; repeat quiet_step|done].
Qed.

(** C10.  For every non-empty list of loaded records one of which is a
    dict without a ["groups"] key, group derivation raises, nothing catches
    it, and [main] ends with that exception before any import pass: the
    files are those the loading left, and no call reached the server. *)
Theorem missing_groups_aborts_before_import inp users d w0 w :
  main_load inp w0 = (w, Ret (Some users)) ->
  In (VDict d) users -> dict_get d "groups" = None ->
  exists e w',
    main api_post inp w0 = (w', Raise e)
    /\ files w' = files w
    /\ calls w' = calls w0 /\ srv w' = srv w0.
Proof.
  intros Hload Hin Hd.
  destruct (derive_groups_missing_groups users d Hin Hd) as [e He].
  destruct (quiet_main_load inp w0) as [Hcalls Hsrv]. rewrite Hload in Hcalls, Hsrv.
  simpl in Hcalls, Hsrv.
  exists e. eexists. split.
  - unfold main. run_M. rewrite Hload.
    unfold main_import. destruct users as [|user users]; [destruct Hin|].
    run_M. rewrite He. reflexivity.
  - simpl. auto.
Qed.

End Main.

Lemma missing_groups_aborts_before_import_witness :
  exists e w',
    main (answering_api true) users_file_run (users_file_world [alice; ungrouped])
    = (w', Raise e)
    /\ files w' = files (users_file_world [alice; ungrouped])
    /\ calls w' = [] /\ srv w' = tt.
Proof.
  destruct (missing_groups_aborts_before_import (answering_api true) users_file_run
              [alice; ungrouped] [("username", VStr "bob")]
              (users_file_world [alice; ungrouped])
              (World (files (users_file_world [alice; ungrouped])) tt []
                 ["Checking connection to Keycloak server at 'https://keycloak'";
                  "Reading users from input file users.json..."]))
    as (e & w' & H); [reflexivity | simpl; auto | reflexivity |].
  exists e, w'. exact H.
Defined.

Section JsonText.

Lemma scan_string_escape c tail :
  scan_string (json_escape_char c +:+ tail) = prepend c (scan_string tail).
Proof. destruct c as [[] [] [] [] [] [] [] []]; reflexivity. Qed.

Lemma scan_string_body s rest :
  scan_string (concat_map json_escape_char s +:+ String dquote rest) = Some (s, rest).
Proof.
  induction s as [|c s IH]; [done|].
  simpl. by rewrite string_app_assoc, scan_string_escape, IH.
Qed.

Lemma scan_digits_uint d rest :
  follow_ok rest = true ->
  scan_digits (NilEmpty.string_of_uint d +:+ rest) = (NilEmpty.string_of_uint d, rest).
Proof.
  intros Hrest. induction d; simpl; rewrite ?string_app_cons; simpl; rewrite ?IHd; try done.
  rewrite string_app_nil_l. destruct rest as [|c rest]; [done|]. simpl in *.
  by destruct (is_digit c).
Qed.

(** The decimal digits of a positive number start with none of them zero. *)
Lemma to_uint_head p :
  exists c s, NilEmpty.string_of_uint (Pos.to_uint p) = String c s
              /\ is_digit c = true /\ Ascii.eqb c "0" = false.
Proof.
  assert (Hnorm : unorm (Pos.to_uint p) = Pos.to_uint p).
  { rewrite <- (DecimalPos.Unsigned.to_of (Pos.to_uint p)).
    by rewrite DecimalPos.Unsigned.of_to. }
  pose proof (DecimalPos.Unsigned.to_uint_nonzero p) as Hnz.
  pose proof (DecimalPos.Unsigned.to_uint_nonnil p) as Hnn.
  destruct (Pos.to_uint p) as [|u|u|u|u|u|u|u|u|u|u];
    try done; try (by eexists _, _).
  exfalso. rewrite unorm_D0 in Hnorm.
  destruct (uint_eq_dec u Nil) as [->|Hne]; [by apply Hnz|].
  pose proof (nb_digits_unorm u Hne) as Hle. rewrite Hnorm in Hle. simpl in Hle. lia.
Qed.

Lemma scan_nat_pos p rest :
  follow_ok rest = true ->
  scan_nat (NilEmpty.string_of_uint (Pos.to_uint p) +:+ rest) = Some (Z.pos p, rest).
Proof.
  intros Hrest. destruct (to_uint_head p) as (c & s & Hs & Hd & Hz).
  pose proof (scan_digits_uint (Pos.to_uint p) rest Hrest) as Hscan.
  pose proof (NilEmpty.usu (Pos.to_uint p)) as Husu.
  unfold scan_nat. rewrite Hs in *. rewrite string_app_cons in *.
  rewrite Hz, Hd, Hscan, Husu. unfold Z.of_uint.
  by rewrite DecimalPos.Unsigned.of_to.
Qed.

Lemma scan_number_str_of_Z z rest :
  follow_ok rest = true ->
  scan_number (str_of_Z z +:+ rest) = Some (z, rest).
Proof.
  intros Hrest.
  assert (Hfollow : forall r : option (Z * string), r = Some (z, rest) ->
            match r with
            | Some (z, String c rest) =>
                if Ascii.eqb c "." || Ascii.eqb c "e" || Ascii.eqb c "E" then None
                else Some (z, String c rest)
            | _ => r
            end = Some (z, rest)).
  { intros r ->. destruct rest as [|c rest]; [done|]. simpl in Hrest.
    destruct (is_digit c); [done|]. simpl in Hrest.
    by destruct (_ || _). }
  unfold scan_number. apply Hfollow.
  unfold str_of_Z, NilZero.string_of_int, NilZero.string_of_uint.
  destruct z as [|p|p]; simpl Z.to_int; cbv beta iota.
  - reflexivity.
  - destruct (to_uint_head p) as (c & s & Hs & Hd & Hz).
    pose proof (scan_nat_pos p rest Hrest) as Hnat.
    destruct (Pos.to_uint p) eqn:Hu; try discriminate Hs;
      rewrite Hs in *; rewrite string_app_cons in *;
      (replace (Ascii.eqb c "-") with false
         by (revert Hd; destruct c as [[] [] [] [] [] [] [] []]; by vm_compute));
      exact Hnat.
  - rewrite string_app_cons. rewrite Ascii.eqb_refl.
    pose proof (scan_nat_pos p rest Hrest) as Hnat.
    destruct (to_uint_head p) as (c & s & Hs & Hd & Hz).
    destruct (Pos.to_uint p) eqn:Hu; try discriminate Hs; by rewrite Hnat.
Qed.

Lemma str_of_Z_head z rest : num_head (str_of_Z z +:+ rest) = true.
Proof.
  unfold str_of_Z, NilZero.string_of_int, NilZero.string_of_uint.
  destruct z as [|p|p]; simpl Z.to_int; cbv beta iota; try done.
  destruct (to_uint_head p) as (c & s & Hs & Hd & Hz).
  destruct (Pos.to_uint p) eqn:Hu; try discriminate Hs;
    rewrite Hs, string_app_cons; simpl; by rewrite Hd.
Qed.

Local Arguments scan_number : simpl never.

Lemma parse_value_number n s z rest :
  num_head s = true -> scan_number s = Some (z, rest) ->
  parse_value (S n) s = Some (VInt z, rest).
Proof.
  destruct s as [|c s]; [done|]. intros Hhead Hscan.
  simpl in Hhead.
  destruct c as [[] [] [] [] [] [] [] []]; try discriminate Hhead;
    simpl; by rewrite Hscan.
Qed.

Lemma value_head_skip_ws s : value_head s = true -> skip_ws s = s.
Proof.
  destruct s as [|c s]; [done|]. simpl. by destruct (is_ws c).
Qed.

Lemma json_dumps_head v rest : value_head (json_dumps v +:+ rest) = true.
Proof.
  destruct v as [| [] | z | s | l | d]; try done.
  pose proof (str_of_Z_head z rest) as H. simpl.
  destruct (str_of_Z z +:+ rest) as [|c s]; [done|]. simpl in *.
  revert H. destruct c as [[] [] [] [] [] [] [] []]; by vm_compute.
Qed.

(** [dict(pairs)] of the items of a dict gives the dict back. *)
Lemma dict_set_fresh k x (d : list (string * value)) :
  k ∉ map fst d -> dict_set k x d = d ++ [(k, x)].
Proof.
  induction d as [|[k' x'] d IH]; [done|]. simpl.
  intros Hk. apply not_elem_of_cons in Hk as [Hne Hk].
  destruct (String.eqb_spec k' k) as [->|_]; [done|]. by rewrite IH.
Qed.

Lemma dict_of_pairs_app (acc d : list (string * value)) :
  NoDup (map fst (acc ++ d)) ->
  fold_left (fun d kv => dict_set (fst kv) (snd kv) d) d acc = acc ++ d.
Proof.
  revert acc. induction d as [|[k x] d IH]; intros acc Hnd; simpl.
  - by rewrite app_nil_r.
  - rewrite dict_set_fresh.
    + rewrite IH; rewrite <- app_assoc; done.
    + rewrite map_app in Hnd. apply NoDup_app in Hnd as (_ & Hdisj & _).
      intros Hk. apply (Hdisj k Hk). simpl. left.
Qed.

Lemma dict_of_pairs_id (d : list (string * value)) :
  NoDup (map fst d) -> dict_of_pairs d = d.
Proof. intros Hnd. unfold dict_of_pairs. by rewrite dict_of_pairs_app. Qed.

Local Arguments scan_number : simpl never.
Local Arguments scan_string : simpl never.
Local Arguments skip_ws : simpl never.
Local Arguments json_dumps : simpl never.
Local Arguments json_string : simpl never.

Lemma skip_ws_space s : skip_ws (String " " s) = skip_ws s.
Proof. reflexivity. Qed.

Local Arguments join : simpl never.

Lemma join_cons sep x y (l : list string) :
  join sep (x :: y :: l) = x +:+ sep +:+ join sep (y :: l).
Proof. reflexivity. Qed.

Lemma join_dumps_head {A} (f : A -> string) sep (l : list A) rest :
  (forall v r, value_head (f v +:+ r) = true) -> l <> [] ->
  skip_ws (join sep (map f l) +:+ rest) = join sep (map f l) +:+ rest.
Proof.
  intros Hf Hl. apply value_head_skip_ws.
  destruct l as [|v [|v' l]]; [done|apply Hf|].
  cbn [map]. rewrite join_cons, !string_app_assoc. apply Hf.
Qed.

Lemma parse_elems_S n s :
  parse_elems (S n) s =
  match parse_value n s with
  | Some (v, rest) =>
      match skip_ws rest with
      | String c rest1 =>
          if Ascii.eqb c "]" then Some ([v], rest1)
          else if Ascii.eqb c "," then
            match parse_elems n (skip_ws rest1) with
            | Some (l, rest2) => Some (v :: l, rest2)
            | None => None
            end
          else None
      | EmptyString => None
      end
  | None => None
  end.
Proof. reflexivity. Qed.

Lemma parse_elems_dumps l :
  Forall reads_back l -> forallb wf_value l = true -> l <> [] ->
  forall n rest, (sum_list (map (fun x => S (fsize x)) l) <= n)%nat ->
    parse_elems n (join ", " (map json_dumps l) +:+ String "]" rest) = Some (l, rest).
Proof.
  induction 1 as [|v l Hv Hl IH]; [done|].
  intros [Hwf Hwfl]%andb_prop _ n rest Hn. simpl in Hn.
  destruct n as [|n]; [lia|]. rewrite parse_elems_S.
  destruct l as [|v' l].
  - cbn [map join]. change (join ", " [json_dumps v]) with (json_dumps v).
    rewrite Hv by (done || lia). reflexivity.
  - cbn [map]. rewrite join_cons, !string_app_assoc.
    rewrite Hv by (done || simpl in *; lia).
    change (", " +:+ ?x) with (String "," (String " " x)).
    change (skip_ws (String "," ?x)) with (String "," x).
    cbv beta iota. change (Ascii.eqb "," "]") with false.
    change (Ascii.eqb "," ",") with true. cbv beta iota.
    rewrite skip_ws_space.
    change (json_dumps v' :: map json_dumps l) with (map json_dumps (v' :: l)).
    rewrite join_dumps_head by (done || apply json_dumps_head).
    rewrite IH; [done..|simpl in *; lia].
Qed.

Lemma parse_members_S n s :
  parse_members (S n) s =
  match s with
  | String q s' =>
      if Ascii.eqb q dquote then
        match scan_string s' with
        | Some (key, rest) =>
            match skip_ws rest with
            | String c rest1 =>
                if Ascii.eqb c ":" then
                  match parse_value n (skip_ws rest1) with
                  | Some (v, rest2) =>
                      match skip_ws rest2 with
                      | String c2 rest3 =>
                          if Ascii.eqb c2 "}" then Some ([(key, v)], rest3)
                          else if Ascii.eqb c2 "," then
                            match parse_members n (skip_ws rest3) with
                            | Some (l, rest4) => Some ((key, v) :: l, rest4)
                            | None => None
                            end
                          else None
                      | EmptyString => None
                      end
                  | None => None
                  end
                else None
            | EmptyString => None
            end
        | None => None
        end
      else None
  | EmptyString => None
  end.
Proof. reflexivity. Qed.

Lemma json_string_app k rest :
  json_string k +:+ rest
  = String dquote (concat_map json_escape_char k +:+ String dquote rest).
Proof. unfold json_string. by rewrite string_app_cons, string_app_assoc. Qed.

Lemma member_text_head kv rest : value_head (member_text kv +:+ rest) = true.
Proof. unfold member_text. by rewrite !string_app_assoc, json_string_app. Qed.

Lemma parse_members_dumps d :
  Forall (fun kv => reads_back (snd kv)) d ->
  forallb (fun kv => wf_value (snd kv)) d = true -> d <> [] ->
  forall n rest, (sum_list (map (fun kv => S (fsize (snd kv))) d) <= n)%nat ->
    parse_members n (join ", " (map member_text d) +:+ String "}" rest) = Some (d, rest).
Proof.
  induction 1 as [|[k x] d Hx Hd IH]; [done|].
  intros [Hwf Hwfd]%andb_prop _ n rest Hn. simpl in Hn, Hx, Hwf.
  destruct n as [|n]; [lia|]. rewrite parse_members_S.
  assert (Hkey : forall T,
    member_text (k, x) +:+ T =
    String dquote (concat_map json_escape_char k
                   +:+ String dquote (String ":" (String " " (json_dumps x +:+ T))))).
  { intros T. unfold member_text. cbn [fst snd].
    by rewrite !string_app_assoc, json_string_app. }
  destruct d as [|kv' d].
  - cbn [map]. change (join ", " [member_text (k, x)]) with (member_text (k, x)).
    rewrite Hkey. rewrite Ascii.eqb_refl, scan_string_body.
    change (skip_ws (String ":" ?t)) with (String ":" t). cbv beta iota.
    rewrite Ascii.eqb_refl, skip_ws_space.
    rewrite value_head_skip_ws by apply json_dumps_head.
    rewrite Hx by (done || lia). reflexivity.
  - cbn [map]. rewrite join_cons, !string_app_assoc.
    rewrite Hkey. rewrite Ascii.eqb_refl, scan_string_body.
    change (skip_ws (String ":" ?t)) with (String ":" t). cbv beta iota.
    rewrite Ascii.eqb_refl, skip_ws_space.
    rewrite value_head_skip_ws by apply json_dumps_head.
    rewrite Hx by (done || simpl in *; lia).
    change (", " +:+ ?t) with (String "," (String " " t)).
    change (skip_ws (String "," ?t)) with (String "," t).
    cbv beta iota. change (Ascii.eqb "," "}") with false.
    change (Ascii.eqb "," ",") with true. cbv beta iota.
    rewrite skip_ws_space.
    change (member_text kv' :: map member_text d) with (map member_text (kv' :: d)).
    rewrite join_dumps_head by (done || apply member_text_head).
    rewrite IH; [done..|simpl in *; lia].
Qed.

Lemma json_dumps_list l :
  json_dumps (VList l) = String "[" (join ", " (map json_dumps l) +:+ "]").
Proof. reflexivity. Qed.

Lemma json_dumps_dict d :
  json_dumps (VDict d) = String "{" (join ", " (map member_text d) +:+ "}").
Proof. reflexivity. Qed.

Lemma parse_value_dumps v : reads_back v.
Proof.
  induction v as [| b | z | s | l IHl | d IHd] using value_nested_ind;
    intros Hwf n rest Hn Hrest; (destruct n as [|n]; [simpl in Hn; lia|]).
  - reflexivity.
  - by destruct b.
  - apply parse_value_number; [apply str_of_Z_head|by apply scan_number_str_of_Z].
  - change (json_dumps (VStr s)) with (json_string s). rewrite json_string_app.
    cbn [parse_value]. rewrite Ascii.eqb_refl. by rewrite scan_string_body.
  - rewrite json_dumps_list, string_app_cons, string_app_assoc.
    change ("]" +:+ rest) with (String "]" rest).
    destruct l as [|v l]; [reflexivity|].
    cbn [parse_value]. change (Ascii.eqb "[" dquote) with false.
    change (Ascii.eqb "[" "[") with true. cbv beta iota.
    rewrite join_dumps_head by (done || apply json_dumps_head).
    pose proof (parse_elems_dumps (v :: l) IHl Hwf ltac:(done) n rest) as Helems.
    assert (Hhead : value_head (join ", " (map json_dumps (v :: l)) +:+ String "]" rest) = true).
    { destruct l as [|v' l]; [apply json_dumps_head|].
      cbn [map]. rewrite join_cons, !string_app_assoc. apply json_dumps_head. }
    destruct (join ", " (map json_dumps (v :: l)) +:+ String "]" rest) as [|c1 rest1];
      [done|].
    cbn [value_head] in Hhead.
    destruct (Ascii.eqb c1 "]"); [by rewrite orb_true_r in Hhead|].
    rewrite Helems; [done|]. simpl in Hn. simpl. lia.
  - rewrite json_dumps_dict, string_app_cons, string_app_assoc.
    change ("}" +:+ rest) with (String "}" rest).
    destruct d as [|kv d]; [reflexivity|].
    cbn [wf_value] in Hwf. apply andb_prop in Hwf as [Hnd Hwf].
    apply bool_decide_eq_true in Hnd.
    cbn [parse_value]. change (Ascii.eqb "{" dquote) with false.
    change (Ascii.eqb "{" "[") with false.
    change (Ascii.eqb "{" "{") with true. cbv beta iota.
    rewrite join_dumps_head by (done || apply member_text_head).
    pose proof (parse_members_dumps (kv :: d) IHd Hwf ltac:(done) n rest) as Hmem.
    assert (Hhead : value_head (join ", " (map member_text (kv :: d)) +:+ String "}" rest) = true).
    { destruct d as [|kv' d]; [apply member_text_head|].
      cbn [map]. rewrite join_cons, !string_app_assoc. apply member_text_head. }
    destruct (join ", " (map member_text (kv :: d)) +:+ String "}" rest) as [|c1 rest1];
      [done|].
    cbn [value_head] in Hhead.
    destruct (Ascii.eqb c1 "}"); [by rewrite orb_true_r in Hhead|].
    rewrite Hmem; [|simpl in Hn; simpl; lia].
    by rewrite dict_of_pairs_id.
Qed.

Lemma json_dumps_length v : (1 <= String.length (json_dumps v))%nat.
Proof.
  pose proof (json_dumps_nonempty v). destruct (json_dumps v); [done|simpl; lia].
Qed.

Lemma items_size_le {A} (f : A -> string) (g : A -> nat) (l : list A) :
  Forall (fun x => (g x <= String.length (f x))%nat) l ->
  (sum_list (map (fun x => S (g x)) l) <= String.length (join ", " (map f l)) + 1)%nat.
Proof.
  induction 1 as [|x l Hx Hl IH]; [simpl; lia|].
  destruct l as [|y l].
  - simpl. change (join ", " [f x]) with (f x). lia.
  - cbn [map]. rewrite join_cons, !string_length_app. cbn [map] in IH.
    simpl in *. lia.
Qed.

Lemma fsize_le_length v : (fsize v <= String.length (json_dumps v))%nat.
Proof.
  induction v as [| b | z | s | l IHl | d IHd] using value_nested_ind;
    try apply json_dumps_length.
  - rewrite json_dumps_list. cbn [fsize String.length].
    rewrite string_length_app. pose proof (items_size_le json_dumps fsize l IHl).
    simpl. lia.
  - rewrite json_dumps_dict. cbn [fsize String.length].
    rewrite string_length_app.
    assert (H : Forall (fun kv => (fsize (snd kv) <= String.length (member_text kv))%nat) d).
    { eapply Forall_impl; [exact IHd|]. intros [k x] Hx. cbn [fst snd] in *.
      unfold member_text. rewrite !string_length_app. cbn [snd]. lia. }
    apply (items_size_le member_text (fun kv => fsize (snd kv))) in H.
    simpl. lia.
Qed.

(** [json.loads(json.dumps(v))] is [v], also with the end of line that the
    reading of a file leaves after the text. *)
Lemma json_loads_dumps v tail :
  wf_value v = true -> tail = "" \/ tail = str1 newline ->
  json_loads (json_dumps v +:+ tail) = Some v.
Proof.
  intros Hwf Htail. unfold json_loads.
  rewrite value_head_skip_ws by apply json_dumps_head.
  rewrite (parse_value_dumps v Hwf).
  - by destruct Htail as [-> | ->].
  - rewrite string_length_app. pose proof (fsize_le_length v). lia.
  - by destruct Htail as [-> | ->].
Qed.

Lemma loads_lines_cache r records :
  wf_value r = true -> forallb wf_value records = true ->
  loads_lines (readlines (json_dumps r +:+ more_lines records)) = Ret (r :: records).
Proof.
  revert r. induction records as [|r' records IH]; intros r Hr Hrs.
  - cbn [more_lines]. rewrite string_app_nil_r.
    rewrite readlines_last by (apply json_dumps_one_line || apply json_dumps_nonempty).
    cbn [loads_lines]. rewrite <- (string_app_nil_r (json_dumps r)).
    rewrite json_loads_dumps by auto. reflexivity.
  - cbn [more_lines]. apply andb_prop in Hrs as [Hr' Hrs].
    rewrite readlines_line by apply json_dumps_one_line.
    cbn [loads_lines]. rewrite json_loads_dumps by auto.
    rewrite IH by done. reflexivity.
Qed.

Lemma append_all_more path records (fs : gmap string string) text :
  fs !! path = Some text ->
  append_all path records fs = <[path := text +:+ more_lines records]> fs.
Proof.
  revert fs text. induction records as [|r records IH]; intros fs text Hfs.
  - cbn [append_all foldl more_lines]. rewrite string_app_nil_r.
    symmetry. by apply insert_id.
  - cbn [append_all foldl more_lines].
    change (foldl ?f ?a records) with (append_all path records a).
    erewrite IH; [|apply cache_object_lookup].
    unfold cache_object. rewrite Hfs. cbn [default].
    rewrite bool_decide_eq_true_2 by eauto.
    rewrite insert_insert_eq. f_equal.
    rewrite !string_app_assoc. reflexivity.
Qed.

Lemma append_all_fresh path r records (fs : gmap string string) :
  fs !! path = None ->
  append_all path (r :: records) fs
  = <[path := json_dumps r +:+ more_lines records]> fs.
Proof.
  intros Hfs. cbn [append_all foldl].
  change (foldl ?f ?a records) with (append_all path records a).
  erewrite append_all_more; [|apply cache_object_lookup].
  unfold cache_object. rewrite Hfs. cbn [default].
  rewrite bool_decide_eq_false_2 by (intros [? [=]]).
  rewrite insert_insert_eq. reflexivity.
Qed.

Section RoundTrip.
Context {server : Type}.


End RoundTrip.




End JsonText.

Lemma groups_set_entry g seen :
  groups_set (VStr g) (group_record g) (map group_entry seen)
  = map group_entry (add_name seen g).
Proof.
  induction seen as [|g' seen IH]; [done|].
  cbn [map groups_set group_entry key_eqb]. unfold add_name in *.
  destruct (String.eqb_spec g' g) as [->|Hne].
  - rewrite decide_True by (apply elem_of_cons; auto). done.
  - fold (group_entry g'). rewrite IH.
    destruct (decide (g ∈ seen)) as [Hin|Hnin].
    + rewrite decide_True by (apply elem_of_cons; auto). done.
    + rewrite decide_False by (intros [?|?]%elem_of_cons; congruence). done.
Qed.

Lemma add_groups_names names seen :
  add_groups (map VStr names) (map group_entry seen)
  = Ret (map group_entry (foldl add_name seen names)).
Proof.
  revert seen. induction names as [|g names IH]; intros seen; [done|].
  cbn [map add_groups hashable foldl].
  change (VDict [("name", VStr g)]) with (group_record g).
  by rewrite groups_set_entry, IH.
Qed.

Lemma mapM_as_str names strs :
  mapM as_str names = Some strs -> names = map VStr strs.
Proof.
  intros H%mapM_Some. induction H as [|v s names strs Hv _ IH]; [done|].
  destruct v; try discriminate Hv. injection Hv as ->. cbn [map]. by rewrite IH.
Qed.

Lemma group_names_Some user strs :
  group_names user = Some strs ->
  rbind (py_getitem user "groups") py_iter = Ret (map VStr strs).
Proof.
  unfold group_names.
  destruct (rbind (py_getitem user "groups") py_iter) as [names|e]; [|done].
  by intros ->%mapM_as_str.
Qed.

Lemma derive_loop_names users seen :
  Forall (fun user => is_Some (group_names user)) users ->
  derive_loop users (map group_entry seen)
  = Ret (map group_entry (seen_after seen users)).
Proof.
  intros Husers. revert seen.
  induction Husers as [|user users [strs Hstrs] _ IH]; intros seen; [done|].
  cbn [derive_loop seen_after foldl]. rewrite Hstrs. cbn [default].
  pose proof (group_names_Some user strs Hstrs) as Hget.
  destruct (py_getitem user "groups") as [gs|e]; [|done].
  cbn [rbind] in *. rewrite Hget. cbn [rbind].
  rewrite add_groups_names. cbn [rbind]. apply IH.
Qed.

Lemma add_name_elem seen g x : x ∈ add_name seen g <-> x ∈ seen \/ x = g.
Proof.
  unfold add_name. destruct (decide (g ∈ seen)) as [Hin|Hnin].
  - split; [by left|]. by intros [?| ->].
  - rewrite elem_of_app, list_elem_of_singleton. done.
Qed.

Lemma add_name_NoDup seen g : NoDup seen -> NoDup (add_name seen g).
Proof.
  unfold add_name. intros Hnd. destruct (decide (g ∈ seen)) as [Hin|Hnin]; [done|].
  apply NoDup_app. split_and!; [done| |apply NoDup_singleton].
  intros x Hx ->%list_elem_of_singleton. done.
Qed.

Lemma add_names_elem names seen x :
  x ∈ foldl add_name seen names <-> x ∈ seen \/ x ∈ names.
Proof.
  revert seen. induction names as [|g names IH]; intros seen; cbn [foldl].
  - rewrite elem_of_nil. tauto.
  - rewrite IH, add_name_elem, elem_of_cons. tauto.
Qed.

Lemma add_names_NoDup names seen : NoDup seen -> NoDup (foldl add_name seen names).
Proof.
  revert seen. induction names as [|g names IH]; intros seen Hnd; [done|].
  cbn [foldl]. by apply IH, add_name_NoDup.
Qed.

Lemma seen_after_elem users seen x :
  x ∈ seen_after seen users <->
  x ∈ seen \/ exists user strs, user ∈ users /\ group_names user = Some strs /\ x ∈ strs.
Proof.
  revert seen. induction users as [|user users IH]; intros seen;
    cbn [seen_after foldl].
  - split; [by left|]. intros [?|(user & strs & []%elem_of_nil & _)]. done.
  - change (foldl ?f ?a users) with (seen_after a users).
    rewrite IH, add_names_elem. split.
    + intros [[?|Hx]|(u & strs & Hu & Hs & Hx)]; [by left| |].
      * right. destruct (group_names user) as [strs|] eqn:Hs; [|by inversion Hx].
        exists user, strs. split_and!; [apply elem_of_cons; auto|done|done].
      * right. exists u, strs. split_and!; [apply elem_of_cons; auto|done|done].
    + intros [?|(u & strs & Hu & Hs & Hx)]; [by left; left|].
      apply elem_of_cons in Hu as [->|Hu].
      * left. right. by rewrite Hs.
      * right. by exists u, strs.
Qed.

Lemma seen_after_NoDup users seen : NoDup seen -> NoDup (seen_after seen users).
Proof.
  revert seen. induction users as [|user users IH]; intros seen Hnd; [done|].
  cbn [seen_after foldl]. by apply IH, add_names_NoDup.
Qed.

#[local] Instance group_record_inj : Inj (=) (=) group_record.
Proof. by intros g g' [= ->]. Qed.

(** C8.  For user records whose ["groups"] fields hold strings, group
    derivation yields, without duplicates, exactly the records
    [{"name": g}] for the group names [g] of the users, and for every
    permutation of the user list the derived groups are the same set. *)
Theorem derive_groups_set (users : list value) :
  Forall (fun user => is_Some (group_names user)) users ->
  exists groups,
    derive_groups users = Ret groups
    /\ NoDup groups
    /\ (forall x, x ∈ groups <->
          exists user strs g,
            user ∈ users /\ group_names user = Some strs /\ g ∈ strs
            /\ x = group_record g)
    /\ forall users', users' ≡ₚ users ->
         exists groups',
           derive_groups users' = Ret groups'
           /\ forall x, x ∈ groups' <-> x ∈ groups.
Proof.
  assert (Hderive : forall us,
    Forall (fun user => is_Some (group_names user)) us ->
    derive_groups us = Ret (map group_record (seen_after [] us))).
  { intros us Hus. unfold derive_groups.
    change (derive_loop us []) with (derive_loop us (map group_entry [])).
    rewrite (derive_loop_names us [] Hus). cbn [rbind].
    rewrite map_map. done. }
  assert (Helem : forall us x,
    x ∈ map group_record (seen_after [] us) <->
    exists user strs g,
      user ∈ us /\ group_names user = Some strs /\ g ∈ strs /\ x = group_record g).
  { intros us x. rewrite list_elem_of_fmap. split.
    - intros (g & -> & Hg). apply seen_after_elem in Hg as [[]%elem_of_nil|Hg].
      destruct Hg as (user & strs & ? & ? & ?). by exists user, strs, g.
    - intros (user & strs & g & ? & ? & ? & ->). exists g. split; [done|].
      apply seen_after_elem. right. by exists user, strs. }
  intros Husers. eexists. split; [by apply Hderive|]. split_and!.
  - apply (NoDup_fmap_2 _).
    apply seen_after_NoDup, NoDup_nil_2.
  - apply Helem.
  - intros users' Hperm. eexists. split.
    + apply Hderive. by rewrite Hperm.
    + intros x. rewrite !Helem. by setoid_rewrite Hperm.
Qed.

Lemma derive_groups_set_witness :
  exists groups,
    derive_groups [alice; carol] = Ret groups
    /\ NoDup groups
    /\ (forall users', users' ≡ₚ [alice; carol] ->
          exists groups',
            derive_groups users' = Ret groups'
            /\ forall x, x ∈ groups' <-> x ∈ groups).
Proof.
  destruct (derive_groups_set [alice; carol]) as (groups & Hd & Hnd & _ & Hperm).
  - repeat constructor; by eexists.
  - exists groups. auto.
Defined.

(** ** The separator of the record store *)

(** C6, as the code has it.  [cache_object] leaves at the path the former
    text, a newline when and only when a file existed at the path, and the
    serialized record, which is one non-empty line; no other file changes. *)
Theorem cache_object_separator (path : string) (record : value) (fs : gmap string string) :
  cache_object path record fs !! path
  = Some (default "" (fs !! path)
          +:+ (if bool_decide (is_Some (fs !! path)) then str1 newline else "")
          +:+ json_dumps record)
  /\ all_chars inline_char (json_dumps record) = true
  /\ json_dumps record <> ""
  /\ forall p, p <> path -> cache_object path record fs !! p = fs !! p.
Proof.
  split_and!.
  - apply cache_object_lookup.
  - apply json_dumps_one_line.
  - apply json_dumps_nonempty.
  - intros p Hp. by apply cache_object_lookup_ne.
Qed.

(** C6 as stated fails: appending to a file that exists and is empty
    writes the separator first, and the file starts with a blank line. *)
Lemma cache_object_empty_file_blank_line :
  empty_cache_files !! "user_cache" = Some "" /\
  cache_object "user_cache" (group_record "g1") empty_cache_files !! "user_cache"
  = Some (String newline (json_dumps (group_record "g1"))) /\
  readlines (String newline (json_dumps (group_record "g1")))
  = [str1 newline; json_dumps (group_record "g1")].
Proof. split_and!; reflexivity. Qed.

Lemma import_value_skips_unnamed_witness :
  exists w',
    import_value (answering_api true) nameless "user" "username"
      "user_import.log" "user_retry_cache" empty_world = (w', Ret (Some SKIPPED))
    /\ calls w' = []
    /\ files w' !! "user_import.log"
       = Some ("Name field missing from {'groups': ['g1']}, skipping" +:+ str1 newline)
    /\ files w' !! "user_retry_cache" = Some (json_dumps nameless).
Proof.
  destruct (import_value_skips_unnamed (answering_api true) [("groups", VList [VStr "g1"])]
              "user" "username" "user_import.log" "user_retry_cache" empty_world)
    as (w' & Hrun & _ & Hcalls & _ & _ & Hfiles); [reflexivity|].
  destruct Hfiles as [Hlog Hretry]; [discriminate|].
  exists w'. split; [exact Hrun|]. split; [exact Hcalls|].
  split; [exact Hlog|exact Hretry].
Defined.

Lemma import_value_conflict_exists_witness :
  exists w',
    import_value (raising_api conflict_error) alice "user" "username"
      "user_import.log" "user_retry_cache" empty_world = (w', Ret (Some EXISTS))
    /\ files w' !! "user_retry_cache" = None.
Proof.
  destruct (import_value_conflict_exists (raising_api conflict_error) alice
              "user" "username" "user_import.log" "user_retry_cache" empty_world
              (VStr "alice") tt conflict_error)
    as (w' & Hrun & Hretry & _); [reflexivity..|discriminate|].
  exists w'. split; [exact Hrun|exact Hretry].
Defined.

Lemma import_value_error_failed_witness :
  exists w',
    import_value (raising_api server_error) alice "user" "username"
      "user_import.log" "user_retry_cache" empty_world = (w', Ret (Some FAILED))
    /\ files w' !! "user_retry_cache" = Some (json_dumps alice).
Proof.
  destruct (import_value_error_failed (raising_api server_error) alice
              "user" "username" "user_import.log" "user_retry_cache" empty_world
              (VStr "alice") tt server_error)
    as (w' & Hrun & Hretry); [reflexivity..|discriminate|].
  exists w'. split; [exact Hrun|exact Hretry].
Defined.


(** * More properties of the batch and of the run *)

Section Batch.
Context {server : Type} (api_post : server -> string -> value -> server * result bool).
Implicit Types (v : value) (w : world server).

(** What one run of [import_value] does to the world, whatever the case. *)
Lemma import_value_effects v object_type name_key log_file_path retry_cache_path w :
  exists w' r,
    import_value api_post v object_type name_key log_file_path retry_cache_path w = (w', r)
    /\ console w' = console w
    /\ calls w' = calls w ++ (if named name_key v then [(object_type, v)] else [])
    /\ (exists lines,
          files w' = (if retried_result r then cache_object retry_cache_path v else id)
                       (log_lines log_file_path lines (files w)))
    /\ (forall e, r = Raise e -> is_Exception e = false \/ py_get v name_key = Raise e).
Proof.
  unfold import_value, named. run_M.
  destruct (py_get v name_key) as [name|e0] eqn:Hget.
  2:{ eexists _, _. split; [reflexivity|]. rewrite app_nil_r.
      split_and!; try done; [by exists []|]. intros e [= ->]. by right. }
  destruct (py_truthy name) eqn:Hname; simpl.
  2:{ eexists _, _. split; [reflexivity|]. rewrite app_nil_r. simpl.
      split_and!; try done. by eexists [_]. }
  destruct (api_post (srv w) object_type v) as [s' [[]|e]] eqn:Hpost; simpl.
  - eexists _, _. split; [reflexivity|]. simpl. split_and!; try done. by exists [].
  - eexists _, _. split; [reflexivity|]. simpl. split_and!; try done. by exists [].
  - destruct (isinstance e KeycloakConflictError) eqn:Hconf.
    + eexists _, _. split; [reflexivity|]. simpl. split_and!; try done. by eexists [_].
    + destruct (is_Exception e) eqn:Hexc.
      * eexists _, _. split; [reflexivity|]. simpl. split_and!; try done. by eexists [_].
      * eexists _, _. split; [reflexivity|]. simpl. split_and!; try done; [by exists []|].
        intros e' [= <-]. by left.
Qed.

Lemma extends_refl s : extends s s.
Proof. exists "". by rewrite string_app_nil_r. Qed.

Lemma extends_trans s t u : extends s t -> extends t u -> extends s u.
Proof. intros [a ->] [b ->]. exists (a +:+ b). by rewrite string_app_assoc. Qed.

Lemma grown_refl fs : grown fs fs.
Proof. intros p text Hp. exists text. auto using extends_refl. Qed.

Lemma grown_trans fs1 fs2 fs3 : grown fs1 fs2 -> grown fs2 fs3 -> grown fs1 fs3.
Proof.
  intros H12 H23 p text Hp. destruct (H12 p text Hp) as (t2 & Hp2 & He2).
  destruct (H23 p t2 Hp2) as (t3 & Hp3 & He3). exists t3. eauto using extends_trans.
Qed.

Lemma grown_write_log_message path msg fs : grown fs (write_log_message path msg fs).
Proof.
  intros p text Hp. unfold write_log_message.
  destruct (decide (path = p)) as [->|Hne].
  - rewrite lookup_insert_eq, Hp. eexists. split; [done|]. by eexists.
  - rewrite lookup_insert_ne by done. exists text. auto using extends_refl.
Qed.

Lemma grown_cache_object path v fs : grown fs (cache_object path v fs).
Proof.
  intros p text Hp. unfold cache_object.
  destruct (decide (path = p)) as [->|Hne].
  - rewrite lookup_insert_eq, Hp. eexists. split; [done|]. by eexists.
  - rewrite lookup_insert_ne by done. exists text. auto using extends_refl.
Qed.

Lemma grown_log_lines path lines fs : grown fs (log_lines path lines fs).
Proof.
  revert fs. induction lines as [|line lines IH]; intros fs; [apply grown_refl|].
  eapply grown_trans; [apply (grown_write_log_message path line)|apply IH].
Qed.




Section Loop.
Variables (object_type name_key log_file_path retry_cache_path : string).

Local Abbreviation loop :=
  (loop_function api_post object_type name_key log_file_path retry_cache_path).

Lemma process_map_cons v values w :
  process_map loop (v :: values) w =
  match loop v w with
  | (w1, Ret res) =>
      match process_map loop values w1 with
      | (w2, Ret results) => (w2, Ret (res :: results))
      | (w2, Raise e) => (w2, Raise e)
      end
  | (w1, Raise e) => (w1, Raise e)
  end.
Proof.
  cbn [process_map]. run_M. destruct (loop v w) as [w1 [res|e]]; [|done].
  by destruct (process_map loop values w1) as [w2 [results|e]].
Qed.

Lemma process_map_calls values w w' results :
  process_map loop values w = (w', Ret results) ->
  length results = length values
  /\ calls w' = calls w ++ map (pair object_type) (List.filter (named name_key) values).
Proof.
  revert w results. induction values as [|v values IH]; intros w results.
  - intros [= <- <-]. by rewrite app_nil_r.
  - rewrite process_map_cons. unfold loop at 1.
    destruct (import_value_effects v object_type name_key log_file_path
                retry_cache_path w) as (w1 & r & -> & _ & Hcalls & _).
    destruct r as [res|e]; [|done].
    destruct (process_map loop values w1) as [w2 [results'|e]] eqn:Hrest; [|done].
    intros [= <- <-]. destruct (IH _ _ Hrest) as [Hlen Hcalls'].
    split; [simpl; by rewrite Hlen|].
    rewrite Hcalls', Hcalls. cbn [List.filter].
    destruct (named name_key v); cbn [map].
    + by rewrite <- app_assoc.
    + by rewrite app_nil_r.
Qed.


Lemma import_value_grown v w w' r :
  loop v w = (w', r) -> grown (files w) (files w').
Proof.
  unfold loop.
  destruct (import_value_effects v object_type name_key log_file_path
              retry_cache_path w) as (w1 & r1 & -> & _ & _ & [lines Hfiles] & _).
  intros [= <- <-]. rewrite Hfiles.
  eapply grown_trans; [apply grown_log_lines|].
  destruct (retried_result r1); [apply grown_cache_object|apply grown_refl].
Qed.

Lemma process_map_grown values w w' r :
  process_map loop values w = (w', r) -> grown (files w) (files w').
Proof.
  revert w r. induction values as [|v values IH]; intros w r.
  - intros [= <- <-]. apply grown_refl.
  - rewrite process_map_cons.
    destruct (loop v w) as [w1 [res|e]] eqn:Hv.
    + destruct (process_map loop values w1) as [w2 [results|e]] eqn:Hrest;
        intros [= <- <-];
        (eapply grown_trans; [by eapply import_value_grown|by eapply IH]).
    + intros [= <- <-]. by eapply import_value_grown.
Qed.

Lemma process_map_raises values w w' e :
  forallb is_dict values = true ->
  process_map loop values w = (w', Raise e) -> is_Exception e = false.
Proof.
  revert w. induction values as [|v values IH]; intros w Hdict; [done|].
  apply andb_prop in Hdict as [Hv Hdict].
  rewrite process_map_cons. unfold loop at 1.
  destruct (import_value_effects v object_type name_key log_file_path
              retry_cache_path w) as (w1 & r & -> & _ & _ & _ & Hexc).
  destruct r as [res|e1].
  - destruct (process_map loop values w1) as [w2 [results|e2]] eqn:Hrest; [done|].
    intros [= <- <-]. by eapply IH.
  - intros [= <- <-]. destruct (Hexc e1 eq_refl) as [?|Hget]; [done|].
    by destruct v.
Qed.

End Loop.

End Batch.

Lemma tally_from r0 results :
  tally r0 results =
  if bool_decide (None ∈ results) then Raise (Exn KeyError "None")
  else Ret (Report (failed_count r0 + occurrences FAILED results)
                   (loaded_count r0 + occurrences LOADED results)
                   (existing_count r0 + occurrences EXISTS results)
                   (skipped_count r0 + occurrences SKIPPED results)).
Proof.
  revert r0. induction results as [|res results IH]; intros r0.
  - rewrite bool_decide_eq_false_2 by apply not_elem_of_nil.
    destruct r0. simpl. unfold occurrences. simpl. by rewrite !Nat.add_0_r.
  - destruct res as [tag|].
    + assert (Hin : bool_decide (None ∈ Some tag :: results) = bool_decide (None ∈ results)).
      { apply bool_decide_ext. rewrite elem_of_cons. split; [by intros [?|?]|auto]. }
      rewrite Hin. destruct tag; cbn [tally count_result]; rewrite IH;
        destruct (bool_decide (None ∈ results)); try done;
        unfold occurrences; simpl; do 2 f_equal; lia.
    + rewrite bool_decide_eq_true_2 by (apply elem_of_cons; auto). done.
Qed.

Lemma occurrences_total results :
  (occurrences FAILED results + occurrences LOADED results
   + occurrences EXISTS results + occurrences SKIPPED results
   + length (List.filter (fun res => bool_decide (res = None)) results)
   = length results)%nat.
Proof.
  induction results as [|res results IH]; [done|].
  unfold occurrences in *. destruct res as [[]|]; simpl in *; lia.
Qed.

(** X1.  The tally of a batch (lines 288-300) raises [KeyError] exactly
    when some result is [None]; otherwise each counter is the number of
    results with its tag, and the counters together with the [None]
    results add up to the size of the batch. *)
Theorem tally_counts (results : list (option ImportResult)) :
  tally (Report 0 0 0 0) results
  = (if bool_decide (None ∈ results) then Raise (Exn KeyError "None")
     else Ret (Report (occurrences FAILED results) (occurrences LOADED results)
                 (occurrences EXISTS results) (occurrences SKIPPED results)))
  /\ (occurrences FAILED results + occurrences LOADED results
      + occurrences EXISTS results + occurrences SKIPPED results
      + length (List.filter (fun res => bool_decide (res = None)) results)
      = length results)%nat.
Proof. split; [apply tally_from|apply occurrences_total]. Qed.


Section Populate.
Context {server : Type} (api_post : server -> string -> value -> server * result bool).
Implicit Types (v : value) (w : world server).

(** [populate_keycloak] in three steps: the removal of the files of the
    pass before, the batch, the tally and its summary. *)
Lemma populate_keycloak_steps object_type values name_key w :
  exists notes,
    populate_keycloak api_post object_type values name_key w =
    match process_map
            (loop_function api_post object_type name_key
               (log_path object_type) (retry_path object_type))
            values
            (World (delete (retry_path object_type)
                      (delete (log_path object_type) (files w)))
               (srv w) (calls w) (console w ++ notes)) with
    | (w2, Raise e) => (w2, Raise e)
    | (w2, Ret results) =>
        match tally (Report 0 0 0 0) results with
        | Raise e => (w2, Raise e)
        | Ret rep =>
            (World
               (write_log_message (log_path object_type)
                  (summary object_type (retry_path object_type) (length values) rep)
                  (files w2))
               (srv w2) (calls w2)
               (console w2
                ++ [summary object_type (retry_path object_type) (length values) rep]),
             Ret tt)
        end
    end.
Proof.
  unfold populate_keycloak, remove_if_exists, os_remove, abspath, loop_function.
  fold (log_path object_type). fold (retry_path object_type).
  unfold mbind, M_bind, bind, path_exists, print, lift, on_files, ret.
  cbn [files srv calls console].
  destruct (files w !! log_path object_type) as [old_log|] eqn:Hlog.
  - rewrite bool_decide_eq_true_2 by eauto. cbn [files srv calls console].
    rewrite Hlog. cbn [files srv calls console].
    destruct (delete (log_path object_type) (files w) !! retry_path object_type)
      as [old_retry|] eqn:Hretry.
    + rewrite bool_decide_eq_true_2 by eauto. cbn [files srv calls console].
      rewrite Hretry. cbn [files srv calls console].
      eexists. rewrite <- !app_assoc. reflexivity.
    + rewrite bool_decide_eq_false_2 by (intros [? [=]]). cbn [files srv calls console].
      rewrite (delete_id _ _ Hretry).
      eexists. rewrite <- !app_assoc. reflexivity.
  - rewrite bool_decide_eq_false_2 by (intros [? [=]]). cbn [files srv calls console].
    rewrite (delete_id _ _ Hlog).
    destruct (files w !! retry_path object_type) as [old_retry|] eqn:Hretry.
    + rewrite bool_decide_eq_true_2 by eauto. cbn [files srv calls console].
      rewrite Hretry. cbn [files srv calls console].
      eexists. rewrite <- !app_assoc. reflexivity.
    + rewrite bool_decide_eq_false_2 by (intros [? [=]]). cbn [files srv calls console].
      rewrite (delete_id _ _ Hretry).
      eexists. rewrite <- !app_assoc. reflexivity.
Qed.



Lemma populate_keycloak_done object_type values name_key w w' :
  populate_keycloak api_post object_type values name_key w = (w', Ret tt) ->
  exists notes w2 results rep,
    process_map
      (loop_function api_post object_type name_key
         (log_path object_type) (retry_path object_type))
      values
      (World (delete (retry_path object_type)
                (delete (log_path object_type) (files w)))
         (srv w) (calls w) (console w ++ notes)) = (w2, Ret results)
    /\ tally (Report 0 0 0 0) results = Ret rep
    /\ w' = World
              (write_log_message (log_path object_type)
                 (summary object_type (retry_path object_type) (length values) rep)
                 (files w2))
              (srv w2) (calls w2)
              (console w2
               ++ [summary object_type (retry_path object_type) (length values) rep]).
Proof.
  destruct (populate_keycloak_steps object_type values name_key w) as [notes ->].
  destruct (process_map _ values _) as [w2 [results|e]] eqn:Hmap; [|done].
  destruct (tally _ results) as [rep|e] eqn:Htally; [|done].
  intros [= <-]. by exists notes, w2, results, rep.
Qed.

(** X2.  A pass that completes has sent to the server the records of the
    batch whose name field is there and true, each as often as it is in
    the batch, with the object type of the pass, and nothing else; the
    order in which the workers sent them is left open. *)
Theorem populate_keycloak_posts_named object_type values name_key w w' :
  populate_keycloak api_post object_type values name_key w = (w', Ret tt) ->
  exists sent,
    calls w' = calls w ++ sent
    /\ sent ≡ₚ map (pair object_type) (List.filter (named name_key) values).
Proof.
  intros (notes & w2 & results & rep & Hmap & _ & ->)%populate_keycloak_done.
  apply process_map_calls in Hmap as [_ Hcalls]. by eexists.
Qed.


(** X4.  A pass over dict records raises only the [KeyError] of the tally
    (a result that is [None]) or an exception that is no [Exception]: no
    [Exception] the server raised for a record ever leaves the pass. *)
Theorem populate_keycloak_raises object_type values name_key w w' e :
  populate_keycloak api_post object_type values name_key w = (w', Raise e) ->
  forallb is_dict values = true ->
  is_Exception e = false \/ e = Exn KeyError "None".
Proof.
  destruct (populate_keycloak_steps object_type values name_key w) as [notes ->].
  destruct (process_map _ values _) as [w2 [results|e']] eqn:Hmap.
  - rewrite tally_from. destruct (bool_decide (None ∈ results)); [|done].
    intros [= <- <-] _. by right.
  - intros [= <- <-] Hdict. left. by eapply process_map_raises.
Qed.

(** X5.  The workers only append: whatever the outcome of the batch,
    every file that existed before is still there and starts with its
    former text. *)
Theorem worker_pool_only_appends
    object_type name_key log_file_path retry_cache_path values w w' r :
  process_map
    (loop_function api_post object_type name_key log_file_path retry_cache_path)
    values w = (w', r) ->
  grown (files w) (files w').
Proof. apply process_map_grown. Qed.

End Populate.

Section Stale.
Context {server : Type} (api_post : server -> string -> value -> server * result bool).
Implicit Types (v : value) (w : world server).

Lemma import_value_same_state
    v object_type name_key log_file_path retry_cache_path w1 w2 w1' r :
  same_state w1 w2 ->
  import_value api_post v object_type name_key log_file_path retry_cache_path w1
  = (w1', r) ->
  exists w2',
    import_value api_post v object_type name_key log_file_path retry_cache_path w2
    = (w2', r)
    /\ same_state w1' w2'.
Proof.
  destruct w1 as [fs1 s1 c1 k1], w2 as [fs2 s2 c2 k2]. intros [Hf Hs].
  cbn [files srv] in Hf, Hs. subst fs2 s2.
  unfold import_value, same_state. run_M.
  destruct (py_get v name_key) as [name|e0].
  2:{ intros [= <- <-]. by eexists. }
  destruct (py_truthy name); simpl.
  2:{ intros [= <- <-]. by eexists. }
  destruct (api_post s1 object_type v) as [s' [[]|e]]; simpl;
    try (intros [= <- <-]; by eexists).
  destruct (isinstance e KeycloakConflictError).
  { intros [= <- <-]. by eexists. }
  destruct (is_Exception e); intros [= <- <-]; by eexists.
Qed.

Lemma process_map_same_state
    object_type name_key log_file_path retry_cache_path values w1 w2 w1' r :
  same_state w1 w2 ->
  process_map
    (loop_function api_post object_type name_key log_file_path retry_cache_path)
    values w1 = (w1', r) ->
  exists w2',
    process_map
      (loop_function api_post object_type name_key log_file_path retry_cache_path)
      values w2 = (w2', r)
    /\ same_state w1' w2'.
Proof.
  revert w1 w2 w1' r. induction values as [|v values IH]; intros w1 w2 w1' r Hsame.
  { intros [= <- <-]. by exists w2. }
  rewrite !process_map_cons.
  destruct (loop_function _ _ _ _ _ v w1) as [w1a r1] eqn:Hv1.
  destruct (import_value_same_state _ _ _ _ _ _ _ _ _ Hsame Hv1) as (w2a & Hv2 & Hsame').
  change (import_value api_post v object_type name_key log_file_path retry_cache_path w2)
    with (loop_function api_post object_type name_key log_file_path retry_cache_path v w2)
    in Hv2.
  rewrite Hv2.
  destruct r1 as [res|e].
  2:{ intros [= <- <-]. by exists w2a. }
  destruct (process_map _ values w1a) as [w1b r1b] eqn:Hrest.
  destruct (IH _ _ _ _ Hsame' Hrest) as (w2b & -> & Hsame'').
  destruct r1b; intros [= <- <-]; by exists w2b.
Qed.

(** X6.  A pass does not see the log and the retry cache of an earlier
    pass: two worlds with the same server that differ only in these two
    files give the same outcome, the same files and the same server
    afterwards. *)
Theorem populate_keycloak_ignores_old_files object_type values name_key w1 w2 :
  srv w1 = srv w2 ->
  (forall p, p <> log_path object_type -> p <> retry_path object_type ->
             files w1 !! p = files w2 !! p) ->
  (populate_keycloak api_post object_type values name_key w1).2
  = (populate_keycloak api_post object_type values name_key w2).2
  /\ files (populate_keycloak api_post object_type values name_key w1).1
     = files (populate_keycloak api_post object_type values name_key w2).1
  /\ srv (populate_keycloak api_post object_type values name_key w1).1
     = srv (populate_keycloak api_post object_type values name_key w2).1.
Proof.
  intros Hsrv Hfiles.
  destruct (populate_keycloak_steps api_post object_type values name_key w1) as [n1 ->].
  destruct (populate_keycloak_steps api_post object_type values name_key w2) as [n2 ->].
  assert (Hsame : same_state
            (World (delete (retry_path object_type)
                      (delete (log_path object_type) (files w1)))
               (srv w1) (calls w1) (console w1 ++ n1))
            (World (delete (retry_path object_type)
                      (delete (log_path object_type) (files w2)))
               (srv w2) (calls w2) (console w2 ++ n2))).
  { split; [|done]. cbn [files]. apply map_eq. intros p.
    destruct (decide (p = retry_path object_type)) as [->|Hp1].
    { by rewrite !lookup_delete_eq. }
    rewrite !(lookup_delete_ne _ (retry_path object_type)) by done.
    destruct (decide (p = log_path object_type)) as [->|Hp2].
    { by rewrite !lookup_delete_eq. }
    rewrite !lookup_delete_ne by done. by apply Hfiles. }
  destruct (process_map _ values (World _ (srv w1) _ _)) as [w1' r1] eqn:Hmap.
  destruct (process_map_same_state _ _ _ _ _ _ _ _ _ Hsame Hmap) as (w2' & -> & Hf & Hs).
  destruct r1 as [results|e]; [|done].
  destruct (tally _ results) as [rep|e]; [|done].
  cbn [fst snd files srv]. by rewrite Hf.
Qed.

End Stale.

Section MainRuns.
Context {server : Type} (api_post : server -> string -> value -> server * result bool).
Implicit Types (v : value) (w : world server) (inp : run_input).

Lemma ask_reuse_steps typed w :
  ask_reuse typed w =
  (World (files w) (srv w) (calls w) (console w ++ replicate (prompts typed) reuse_prompt),
   match first_answer typed with
   | Some reuse => Ret reuse
   | None => Raise (Exn EOFError "EOF when reading a line")
   end).
Proof.
  revert w. induction typed as [|line typed IH]; intros w; [done|].
  cbn [ask_reuse first_answer prompts]. unfold is_answer. run_M.
  destruct (String.eqb (lower line) "y"); [done|].
  destruct (String.eqb (lower line) "n"); [done|].
  cbn [orb]. rewrite IH. cbn [files srv calls console replicate].
  by rewrite <- app_assoc.
Qed.

(** X15.  The prompt (lines 108-111) is shown once more than there are
    lines that answer neither [y] nor [n], in either case; the first line
    that does decides, what is typed after it is not read, and the end of
    the input raises [EOFError]. *)
Theorem ask_reuse_repeats_until_answered (junk : list string) w :
  forallb (fun line => negb (is_answer line)) junk = true ->
  ask_reuse junk w
  = (World (files w) (srv w) (calls w)
       (console w ++ replicate (S (length junk)) reuse_prompt),
     Raise (Exn EOFError "EOF when reading a line"))
  /\ forall line rest,
       is_answer line = true ->
       ask_reuse (junk ++ line :: rest) w
       = (World (files w) (srv w) (calls w)
            (console w ++ replicate (S (length junk)) reuse_prompt),
          Ret (String.eqb (lower line) "y")).
Proof.
  intros Hjunk.
  assert (Hp : forall tail, prompts (junk ++ tail) = (length junk + prompts tail)%nat).
  { intros tail. induction junk as [|j junk IH]; [done|].
    apply andb_prop in Hjunk as [Hj Hjunk]. apply negb_true_iff in Hj.
    cbn [app prompts length]. rewrite Hj, IH by done. done. }
  assert (Ha : forall tail, first_answer (junk ++ tail) = first_answer tail).
  { intros tail. induction junk as [|j junk IH]; [done|].
    apply andb_prop in Hjunk as [Hj Hjunk]. apply negb_true_iff in Hj.
    cbn [app first_answer]. rewrite Hj. apply IH; [done|].
    intros tail'. specialize (Hp tail'). cbn [app prompts length] in Hp.
    rewrite Hj in Hp. lia. }
  split.
  - rewrite ask_reuse_steps. rewrite <- (app_nil_r junk) at 1 2.
    rewrite Ha, Hp. cbn [first_answer prompts]. by rewrite Nat.add_1_r.
  - intros line rest Hline. rewrite ask_reuse_steps, Ha, Hp.
    cbn [first_answer prompts]. rewrite Hline. by rewrite Nat.add_1_r.
Qed.

Lemma discover_steps database seconds path w :
  exists notes,
    discover database seconds path w =
    (World (append_all path (db_rows database) (files w)) (srv w) (calls w)
       (console w ++ notes),
     match db_failure database with
     | Some e => Raise e
     | None => Ret tt
     end).
Proof.
  unfold discover. unfold mbind, M_bind, bind, try_except, raise, ret, print.
  rewrite cache_rows_spec. cbn [files srv calls console].
  destruct (db_failure database) as [e|].
  - destruct (isinstance e ProgrammingError); [by eexists [_]|].
    destruct (is_Exception e); [by eexists [_]|].
    exists []. by rewrite app_nil_r.
  - eexists [_; _]. by rewrite <- app_assoc.
Qed.

(** [main_load] when it discovers: what is left of it after the old cache
    is gone. *)
Lemma main_load_discovery inp w :
  check_connection inp = None -> str_truthy (file_input inp) = false ->
  files w !! "user_cache" = None \/ first_answer (answers inp) = Some false ->
  exists notes,
    main_load inp w =
    match discover (db inp) (elapsed inp) "user_cache"
            (World (delete "user_cache" (files w)) (srv w) (calls w)
               (console w ++ notes)) with
    | (w2, Ret _) =>
        match read_users "user_cache" w2 with
        | (w3, Ret users) => (w3, Ret (Some users))
        | (w3, Raise e) =>
            if is_Exception e then
              (World (files w3) (srv w3) (calls w3)
                 (console w3 ++ ["Failed to load users from " +:+ "user_cache"
                                 +:+ ": " +:+ exn_str e]),
               Ret None)
            else (w3, Raise e)
        end
    | (w2, Raise e) =>
        if is_Exception e then
          match os_remove "user_cache"
                  (World (files w2) (srv w2) (calls w2)
                     (console w2 ++ ["Cleaning up failed cache"])) with
          | (w3, Ret _) => (w3, Ret None)
          | (w3, Raise e') => (w3, Raise e')
          end
        else (w2, Raise e)
    end.
Proof.
  intros Hconn Hfile Hmode.
  unfold main_load, remove_if_exists, abspath.
  unfold mbind, M_bind, bind, try_except, raise_if, ret, print, path_exists.
  rewrite Hconn, Hfile. cbn [negb files srv calls console].
  destruct (files w !! "user_cache") as [old|] eqn:Hcache.
  - destruct Hmode as [[=]|Hanswer].
    rewrite bool_decide_eq_true_2 by eauto.
    rewrite ask_reuse_steps, Hanswer. cbn [files srv calls console].
    rewrite Hfile. cbn [files srv calls console].
    rewrite Hcache. rewrite bool_decide_eq_true_2 by eauto.
    unfold os_remove at 1. cbn [files srv calls console]. rewrite Hcache.
    eexists. cbn [files srv calls console]. rewrite <- !app_assoc.
    match goal with
    | |- context [discover _ _ _ (World _ _ _ (console w ++ ?k))] =>
        tryif is_evar k then fail else instantiate (1 := k)
    end.
    destruct (discover _ _ _ _) as [w2 [[]|e]].
    + cbn [negb]. unfold read_users.
      destruct (files w2 !! "user_cache"); [|reflexivity].
      destruct (loads_lines _) as [users|e]; [reflexivity|].
      by destruct (is_Exception e).
    + destruct (is_Exception e); [|reflexivity].
      by destruct (os_remove _ _) as [w3 [[]|e']].
  - rewrite bool_decide_eq_false_2 by (intros [? [=]]).
    cbn [files srv calls console]. rewrite Hfile. cbn [files srv calls console].
    rewrite Hcache. rewrite bool_decide_eq_false_2 by (intros [? [=]]).
    rewrite (delete_id _ _ Hcache).
    eexists. cbn [files srv calls console]. rewrite <- !app_assoc.
    match goal with
    | |- context [discover _ _ _ (World _ _ _ (console w ++ ?k))] =>
        tryif is_evar k then fail else instantiate (1 := k)
    end.
    destruct (discover _ _ _ _) as [w2 [[]|e]].
    + cbn [negb]. unfold read_users.
      destruct (files w2 !! "user_cache"); [|reflexivity].
      destruct (loads_lines _) as [users|e]; [reflexivity|].
      by destruct (is_Exception e).
    + destruct (is_Exception e); [|reflexivity].
      by destruct (os_remove _ _) as [w3 [[]|e']].
Qed.

End MainRuns.

Section DiscoveryRuns.
Context {server : Type} (api_post : server -> string -> value -> server * result bool).
Implicit Types (v : value) (w : world server) (inp : run_input).

(** X9.  Discovery that succeeds with at least one row (no cache at
    hand, or the answer [n] at the prompt) replaces the cache by the rows,
    one per line, and the loading stage hands over exactly these rows. *)
Theorem rediscovery_replaces_cache inp w row rows :
  check_connection inp = None -> str_truthy (file_input inp) = false ->
  files w !! "user_cache" = None \/ first_answer (answers inp) = Some false ->
  db_failure (db inp) = None -> db_rows (db inp) = row :: rows ->
  forallb wf_value (row :: rows) = true ->
  exists w',
    main_load inp w = (w', Ret (Some (row :: rows)))
    /\ files w' = <["user_cache" := json_dumps row +:+ more_lines rows]> (files w)
    /\ calls w' = calls w /\ srv w' = srv w.
Proof.
  intros Hconn Hfile Hmode Hok Hrows [Hrow Hwf]%andb_prop.
  destruct (main_load_discovery inp w Hconn Hfile Hmode) as [notes ->].
  destruct (discover_steps (db inp) (elapsed inp) "user_cache"
              (World (delete "user_cache" (files w)) (srv w) (calls w)
                 (console w ++ notes))) as [notes' ->].
  rewrite Hok, Hrows. cbn [files srv calls console].
  rewrite append_all_fresh by apply lookup_delete_eq.
  unfold read_users. cbn [files]. rewrite lookup_insert_eq.
  rewrite loads_lines_cache by done.
  eexists. split; [reflexivity|]. cbn [files srv calls].
  by rewrite insert_delete_eq.
Qed.


(** X11.  An exception during discovery that is no [Exception] (an
    interrupt) is not cleaned up after: it leaves [main], and the cache
    holds the rows written so far. *)
Theorem interrupted_discovery_leaves_partial_cache inp w e :
  check_connection inp = None -> str_truthy (file_input inp) = false ->
  files w !! "user_cache" = None \/ first_answer (answers inp) = Some false ->
  db_failure (db inp) = Some e -> is_Exception e = false ->
  exists w',
    main api_post inp w = (w', Raise e)
    /\ files w' = append_all "user_cache" (db_rows (db inp))
                    (delete "user_cache" (files w))
    /\ (db_rows (db inp) <> [] -> is_Some (files w' !! "user_cache"))
    /\ calls w' = calls w /\ srv w' = srv w.
Proof.
  intros Hconn Hfile Hmode Hfail Hexc. unfold main.
  unfold mbind, M_bind, bind.
  destruct (main_load_discovery inp w Hconn Hfile Hmode) as [notes ->].
  destruct (discover_steps (db inp) (elapsed inp) "user_cache"
              (World (delete "user_cache" (files w)) (srv w) (calls w)
                 (console w ++ notes))) as [notes' ->].
  rewrite Hfail, Hexc. cbn [files srv calls console].
  eexists. split; [reflexivity|]. cbn [files srv calls].
  split_and!; try done. intros Hrows. apply append_all_is_Some. by left.
Qed.

(** X12.  When discovery raises an [Exception] after at least one row
    was written, [main] removes the partial cache and returns; an old
    cache the user chose not to reuse is gone as well. *)
Theorem failed_discovery_removes_partial_cache inp w e :
  check_connection inp = None -> str_truthy (file_input inp) = false ->
  files w !! "user_cache" = None \/ first_answer (answers inp) = Some false ->
  db_failure (db inp) = Some e -> is_Exception e = true ->
  db_rows (db inp) <> [] ->
  exists w',
    main api_post inp w = (w', Ret tt)
    /\ files w' = delete "user_cache" (files w)
    /\ calls w' = calls w /\ srv w' = srv w.
Proof.
  intros Hconn Hfile Hmode Hfail Hexc Hrows. unfold main.
  unfold mbind, M_bind, bind.
  destruct (main_load_discovery inp w Hconn Hfile Hmode) as [notes ->].
  destruct (discover_steps (db inp) (elapsed inp) "user_cache"
              (World (delete "user_cache" (files w)) (srv w) (calls w)
                 (console w ++ notes))) as [notes' ->].
  rewrite Hfail, Hexc. unfold os_remove. cbn [files srv calls console].
  destruct (db_rows (db inp)) as [|row rows]; [done|].
  rewrite append_all_fresh by apply lookup_delete_eq.
  rewrite lookup_insert_eq.
  eexists. split; [reflexivity|]. cbn [files srv calls].
  split_and!; try done. by rewrite delete_insert_eq, delete_delete_eq.
Qed.

End DiscoveryRuns.

Lemma starts_no_value_fails line :
  starts_no_value line = true -> json_loads line = None.
Proof.
  unfold starts_no_value, json_loads.
  destruct (skip_ws line) as [|c rest]; [done|].
  intros Hc%negb_true_iff. rewrite Nat.add_1_r. cbn [parse_value].
  destruct c as [[] [] [] [] [] [] [] []]; try discriminate Hc; reflexivity.
Qed.

Lemma loads_lines_fails lines line :
  In line lines -> json_loads line = None ->
  loads_lines lines = Raise (Exn JSONDecodeError "Expecting value").
Proof.
  intros Hin Hline. induction lines as [|l lines IH]; [done|].
  cbn [loads_lines]. destruct Hin as [->|Hin]; [by rewrite Hline|].
  destruct (json_loads l); [|done]. by rewrite IH.
Qed.

Lemma add_groups_outcome names groups :
  match add_groups names groups with
  | Ret _ => forallb scalar names = true
  | Raise e => forallb scalar names = false /\ exn_cls e = TypeError
  end.
Proof.
  revert groups. induction names as [|g names IH]; intros groups; [done|].
  cbn [add_groups forallb]. destruct g; cbn [hashable scalar andb]; try apply IH; done.
Qed.

Lemma iter_scalar (gs : value) names :
  py_iter gs = Ret names ->
  match gs with VList _ => True | _ => forallb scalar names = true end.
Proof.
  destruct gs; try done; cbn [py_iter]; intros [= <-].
  - by induction (list_ascii_of_string s).
  - by induction d.
Qed.

Lemma derive_step_outcome user groups :
  match rbind (py_getitem user "groups") (fun gs =>
        rbind (py_iter gs) (fun names => add_groups names groups)) with
  | Ret _ => has_groups user = true
  | Raise e =>
      has_groups user = false
      /\ (if lacks_groups user then e = Exn KeyError "'groups'"
          else exn_cls e = TypeError)
  end.
Proof.
  destruct user as [| | | | |d]; try done.
  cbn [py_getitem has_groups lacks_groups].
  destruct (dict_get d "groups") as [gs|]; cbn [rbind]; [|done].
  destruct (py_iter gs) as [names|e] eqn:Hiter; cbn [rbind].
  - pose proof (iter_scalar gs names Hiter) as Hs.
    pose proof (add_groups_outcome names groups) as Hadd.
    destruct gs as [| | |s|l|d']; try done.
    + injection Hiter as <-. destruct (add_groups _ groups); [done|].
      destruct Hadd. congruence.
    + injection Hiter as <-. by destruct (add_groups l groups).
    + injection Hiter as <-. destruct (add_groups _ groups); [done|].
      destruct Hadd. congruence.
  - by destruct gs; try done; injection Hiter as <-.
Qed.

Lemma derive_loop_outcome users groups :
  match derive_loop users groups with
  | Ret _ => forallb has_groups users = true
  | Raise e =>
      exists good bad rest,
        users = good ++ bad :: rest
        /\ forallb has_groups good = true /\ has_groups bad = false
        /\ (if lacks_groups bad then e = Exn KeyError "'groups'"
            else exn_cls e = TypeError)
  end.
Proof.
  revert groups. induction users as [|user users IH]; intros groups; [done|].
  cbn [derive_loop forallb].
  pose proof (derive_step_outcome user groups) as Hstep.
  destruct (py_getitem user "groups") as [gs|e]; cbn [rbind] in *.
  - destruct (py_iter gs) as [names|e]; cbn [rbind] in *.
    + destruct (add_groups names groups) as [groups1|e]; cbn [rbind].
      * rewrite Hstep. cbn [andb]. specialize (IH groups1).
        destruct (derive_loop users groups1) as [groups2|e]; [done|].
        destruct IH as (good & bad & rest & -> & Hgood & Hbad & He).
        exists (user :: good), bad, rest. cbn [forallb]. by rewrite Hstep, Hgood.
      * destruct Hstep as [Hbad He]. by exists [], user, users.
    + destruct Hstep as [Hbad He]. by exists [], user, users.
  - destruct Hstep as [Hbad He]. by exists [], user, users.
Qed.

(** X13.  Group derivation succeeds exactly when every user record is a
    dict whose ["groups"] field is a list of scalars, a string or a dict,
    whatever the order of the records.  Otherwise it raises at the first
    record that is not: [KeyError] with the key when that record is a dict
    without the field, [TypeError] in every other case. *)
Theorem derive_groups_succeeds_iff (users : list value) :
  ((exists groups, derive_groups users = Ret groups)
   <-> forallb has_groups users = true)
  /\ (forall e,
        derive_groups users = Raise e ->
        exists good bad rest,
          users = good ++ bad :: rest
          /\ forallb has_groups good = true /\ has_groups bad = false
          /\ (if lacks_groups bad then e = Exn KeyError "'groups'"
              else exn_cls e = TypeError)).
Proof.
  pose proof (derive_loop_outcome users []) as H. unfold derive_groups.
  destruct (derive_loop users []) as [groups|e]; cbn [rbind].
  - split; [split; eauto|done].
  - destruct H as (good & bad & rest & -> & Hgood & Hbad & He). split.
    + split; [by intros [? [=]]|].
      rewrite forallb_app. cbn [forallb]. rewrite Hbad, andb_false_r. done.
    + intros e' [= <-]. by exists good, bad, rest.
Qed.


Section FileRuns.
Context {server : Type} (api_post : server -> string -> value -> server * result bool).
Implicit Types (v : value) (w : world server) (inp : run_input).

(** X7.  With an input file given, the run is the same whatever the
    database holds, the clock measures and the terminal types: discovery
    and the prompt play no part. *)
Theorem input_file_run_ignores_database inp inp' w :
  str_truthy (file_input inp) = true -> same_options inp inp' ->
  main api_post inp w = main api_post inp' w.
Proof.
  destruct inp as [f u c s a d t], inp' as [f' u' c' s' a' d' t'].
  unfold same_options. cbn [file_input keycloak_url check_connection session_enter].
  intros Hfile (<- & <- & <- & <-).
  unfold main, main_load, abspath.
  unfold mbind, M_bind, bind, try_except, raise_if, ret, print, path_exists.
  cbn [file_input keycloak_url check_connection session_enter answers db elapsed].
  rewrite Hfile. destruct c as [e|].
  - unfold raise. by destruct (isinstance e ConnectionError).
  - cbn [negb files srv calls console]. rewrite Hfile. cbn [negb]. cbv beta.
    destruct (@read_users server _ _) as [w1 [users|e]]; [reflexivity|].
    by destruct (is_Exception e).
Qed.

(** X14.  When the cached users are reused (the first answer is [y], in
    either case), the run is the same whatever the database holds, and
    the loading stage leaves the files as they are. *)
Theorem cache_reuse_ignores_database inp inp' w :
  str_truthy (file_input inp) = false ->
  is_Some (files w !! "user_cache") ->
  first_answer (answers inp) = Some true ->
  same_options inp inp' -> answers inp = answers inp' ->
  main api_post inp w = main api_post inp' w
  /\ files (main_load inp w).1 = files w.
Proof.
  destruct inp as [f u c s a d t], inp' as [f' u' c' s' a' d' t'].
  unfold same_options.
  cbn [file_input keycloak_url check_connection session_enter answers].
  intros Hfile Hcache Hanswer (<- & <- & <- & <-) <-.
  unfold main, main_load, abspath.
  unfold mbind, M_bind, bind, try_except, raise_if, ret, print, path_exists.
  cbn [file_input keycloak_url check_connection session_enter answers db elapsed].
  rewrite Hfile. destruct c as [e|].
  - unfold raise. by destruct (isinstance e ConnectionError).
  - cbn [negb files srv calls console].
    rewrite (bool_decide_eq_true_2 _ Hcache). rewrite !ask_reuse_steps, Hanswer.
    cbn [files srv calls console str_truthy String.eqb negb default].
    unfold read_users. cbn [files id].
    destruct (files w !! "user_cache") as [text|]; [|by split].
    destruct (loads_lines (readlines text)) as [users|e]; [by split|].
    by destruct (is_Exception e); split.
Qed.

(** X8.  One line of the input file at which no JSON value starts, a
    blank line for one, ends the run: [main] returns without an exception,
    no record of the file is imported, no file is written and the server
    is not called. *)
Theorem malformed_line_aborts_run inp w path text line :
  check_connection inp = None ->
  file_input inp = Some path -> path <> "" ->
  files w !! path = Some text ->
  In line (readlines text) -> starts_no_value line = true ->
  exists w',
    main api_post inp w = (w', Ret tt)
    /\ files w' = files w /\ calls w' = calls w /\ srv w' = srv w.
Proof.
  destruct inp as [f u c s a d t].
  cbn [file_input check_connection]. intros -> -> Hpath Htext Hin Hline.
  assert (Htruthy : str_truthy (Some path) = true).
  { cbn [str_truthy]. apply negb_true_iff. by apply String.eqb_neq. }
  unfold main, main_load, abspath.
  unfold mbind, M_bind, bind, try_except, raise_if, ret, print, path_exists.
  cbn [file_input keycloak_url check_connection session_enter answers db elapsed].
  repeat (rewrite Htruthy; cbn [negb files srv calls console default]).
  unfold read_users. cbn [files id]. rewrite Htext.
  rewrite (loads_lines_fails _ _ Hin (starts_no_value_fails _ Hline)).
  eexists. split; [reflexivity|]. done.
Qed.

End FileRuns.

Section Order.
Context {server : Type} (api_post : server -> string -> value -> server * result bool).
Implicit Types (v : value) (w : world server) (inp : run_input).

Lemma process_map_raise_class
    object_type name_key log_file_path retry_cache_path values w w' e :
  process_map
    (loop_function api_post object_type name_key log_file_path retry_cache_path)
    values w = (w', Raise e) ->
  handled_by_main e = false.
Proof.
  revert w. induction values as [|v values IH]; intros w; [done|].
  rewrite process_map_cons. unfold loop_function at 1.
  destruct (import_value_effects api_post v object_type name_key log_file_path
              retry_cache_path w) as (w1 & r & -> & _ & _ & _ & Hexc).
  destruct r as [res|e1].
  - destruct (process_map _ values w1) as [w2 [results|e2]] eqn:Hrest; [done|].
    intros [= <- <-]. by eapply IH.
  - intros [= <- <-]. destruct (Hexc e1 eq_refl) as [Hne|Hget].
    + unfold is_Exception in Hne. apply negb_false_iff, bool_decide_eq_true in Hne.
      unfold handled_by_main, isinstance. by rewrite Hne.
    + destruct v; simplify_eq/=; done.
Qed.

Lemma populate_keycloak_raise_class object_type values name_key w w' e :
  populate_keycloak api_post object_type values name_key w = (w', Raise e) ->
  handled_by_main e = false.
Proof.
  destruct (populate_keycloak_steps api_post object_type values name_key w) as [notes ->].
  destruct (process_map _ values _) as [w2 [results|e']] eqn:Hmap.
  - rewrite tally_from. destruct (bool_decide (None ∈ results)); [|done].
    by intros [= <- <-].
  - intros [= <- <-]. by eapply process_map_raise_class.
Qed.

Lemma populate_keycloak_calls object_type values name_key w w' :
  populate_keycloak api_post object_type values name_key w = (w', Ret tt) ->
  calls w' = calls w ++ map (pair object_type) (List.filter (named name_key) values).
Proof.
  intros (notes & w2 & results & rep & Hmap & _ & ->)%populate_keycloak_done.
  by apply process_map_calls in Hmap as [_ Hcalls].
Qed.

(** X16.  A run whose import stage completes has sent every derived
    group with a name and then every user with a name, each once: no user
    is sent before the last group.  The order inside each of the two
    passes is left open. *)
Theorem completed_import_posts_groups_then_users inp users w w' :
  users <> [] -> session_enter inp = None ->
  main_import api_post inp users w = (w', Ret tt) ->
  exists groups group_calls user_calls,
    derive_groups users = Ret groups
    /\ calls w' = calls w ++ group_calls ++ user_calls
    /\ group_calls ≡ₚ map (pair "group") (List.filter (named "name") groups)
    /\ user_calls ≡ₚ map (pair "user") (List.filter (named "username") users).
Proof.
  intros Husers Hsession. unfold main_import.
  destruct users as [|user users]; [done|].
  unfold mbind, M_bind, bind, try_except, raise_if, lift, print.
  destruct (derive_groups (user :: users)) as [groups|e]; [|done].
  rewrite Hsession. unfold ret at 1. cbn [files srv calls console].
  destruct (populate_keycloak api_post "group" groups "name" _) as [w1 [[]|e]] eqn:Hg.
  - destruct (populate_keycloak api_post "user" (user :: users) "username" w1)
      as [w2 [[]|e]] eqn:Hu.
    + intros [= <-]. exists groups. eexists _, _. split; [done|].
      apply populate_keycloak_calls in Hg, Hu. cbn [calls] in Hg.
      rewrite Hu, Hg, <- app_assoc. done.
    + apply populate_keycloak_raise_class in Hu.
      unfold handled_by_main in Hu.
      apply orb_false_elim in Hu as [[-> ->]%orb_false_elim ->]. done.
  - apply populate_keycloak_raise_class in Hg.
    unfold handled_by_main in Hg.
    apply orb_false_elim in Hg as [[-> ->]%orb_false_elim ->]. done.
Qed.

End Order.

Lemma populate_keycloak_posts_named_witness :
  exists w' sent,
    populate_keycloak (raising_api server_error) "user" [alice; nameless]
      "username" empty_world = (w', Ret tt)
    /\ calls w' = sent /\ sent ≡ₚ [("user", alice)].
Proof.
  assert (exists w',
             populate_keycloak (raising_api server_error) "user" [alice; nameless]
               "username" empty_world = (w', Ret tt)) as [w' Hrun]
    by (eexists; vm_compute; reflexivity).
  destruct (populate_keycloak_posts_named (raising_api server_error) "user"
              [alice; nameless] "username" empty_world w' Hrun)
    as (sent & Hcalls & Hsent).
  exists w', sent. split; [exact Hrun|]. split; [exact Hcalls|exact Hsent].
Defined.


Lemma populate_keycloak_raises_witness :
  exists w' e,
    populate_keycloak (answering_api false) "user" [alice] "username" empty_world
    = (w', Raise e)
    /\ (is_Exception e = false \/ e = Exn KeyError "None").
Proof.
  assert (exists w' e,
             populate_keycloak (answering_api false) "user" [alice] "username"
               empty_world = (w', Raise e)) as (w' & e & Hrun)
    by (eexists _, _; vm_compute; reflexivity).
  exists w', e. split; [exact Hrun|].
  exact (populate_keycloak_raises (answering_api false) "user" [alice] "username"
           empty_world w' e Hrun eq_refl).
Defined.

Lemma worker_pool_only_appends_witness :
  grown (files stale_world)
    (files (process_map
              (loop_function (raising_api server_error) "user" "username"
                 "user_import.log" "user_retry_cache")
              [alice; nameless] stale_world).1).
Proof.
  exact (worker_pool_only_appends (raising_api server_error) "user" "username"
           "user_import.log" "user_retry_cache" [alice; nameless] stale_world
           _ _ eq_refl).
Defined.

Lemma populate_keycloak_ignores_old_files_witness :
  files (populate_keycloak (raising_api server_error) "user" [alice] "username"
           stale_world).1
  = files (populate_keycloak (raising_api server_error) "user" [alice] "username"
             empty_world).1.
Proof.
  destruct (populate_keycloak_ignores_old_files (raising_api server_error) "user"
              [alice] "username" stale_world empty_world) as (_ & Hfiles & _).
  - reflexivity.
  - intros p Hlog Hretry. cbn [files stale_world empty_world].
    rewrite lookup_insert_ne by done. by rewrite lookup_singleton_ne.
  - exact Hfiles.
Defined.

Lemma input_file_run_ignores_database_witness :
  main (answering_api true) users_file_run (users_file_world [alice])
  = main (answering_api true)
      (RunInput (Some "users.json") "https://keycloak" None None ["n"]
         (Database [carol] (Some query_error)) 7)
      (users_file_world [alice]).
Proof.
  apply input_file_run_ignores_database; [reflexivity|].
  repeat split.
Defined.

Lemma malformed_line_aborts_run_witness :
  exists w',
    main (answering_api true) users_file_run broken_file_world = (w', Ret tt)
    /\ files w' = files broken_file_world /\ calls w' = [].
Proof.
  destruct (malformed_line_aborts_run (answering_api true) users_file_run
              broken_file_world "users.json"
              (json_dumps alice +:+ str1 newline +:+ str1 newline
               +:+ json_dumps carol)
              (str1 newline))
    as (w' & Hrun & Hfiles & Hcalls & _);
    [reflexivity | reflexivity | discriminate | reflexivity
    | vm_compute; auto | reflexivity |].
  exists w'. split; [exact Hrun|]. split; [exact Hfiles|exact Hcalls].
Defined.

Lemma rediscovery_replaces_cache_witness :
  exists w',
    main_load (discovery_run [alice; carol] None ["n"]) cached_world
    = (w', Ret (Some [alice; carol]))
    /\ files w' !! "user_cache"
       = Some (json_dumps alice +:+ String newline (json_dumps carol)).
Proof.
  destruct (rediscovery_replaces_cache (discovery_run [alice; carol] None ["n"])
              cached_world alice [carol])
    as (w' & Hrun & Hfiles & _);
    [reflexivity | reflexivity | by right | reflexivity | reflexivity | reflexivity |].
  exists w'. split; [exact Hrun|]. rewrite Hfiles. reflexivity.
Defined.


Lemma interrupted_discovery_leaves_partial_cache_witness :
  exists w',
    main (answering_api true) (discovery_run [alice] (Some interrupt) []) empty_world
    = (w', Raise interrupt)
    /\ is_Some (files w' !! "user_cache").
Proof.
  destruct (interrupted_discovery_leaves_partial_cache (answering_api true)
              (discovery_run [alice] (Some interrupt) []) empty_world interrupt)
    as (w' & Hrun & _ & Hsome & _);
    [reflexivity | reflexivity | by left | reflexivity | reflexivity |].
  exists w'. split; [exact Hrun|]. by apply Hsome.
Defined.

Lemma failed_discovery_removes_partial_cache_witness :
  exists w',
    main (answering_api true) (discovery_run [alice] (Some query_error) ["n"])
      cached_world = (w', Ret tt)
    /\ files w' !! "user_cache" = None.
Proof.
  destruct (failed_discovery_removes_partial_cache (answering_api true)
              (discovery_run [alice] (Some query_error) ["n"]) cached_world
              query_error)
    as (w' & Hrun & Hfiles & _);
    [reflexivity | reflexivity | by right | reflexivity | reflexivity | discriminate |].
  exists w'. split; [exact Hrun|]. rewrite Hfiles. reflexivity.
Defined.

Lemma cache_reuse_ignores_database_witness :
  main (answering_api true) (discovery_run [carol] None ["maybe"; "Y"]) cached_world
  = main (answering_api true)
      (RunInput None "https://keycloak" None None ["maybe"; "Y"]
         (Database [] (Some query_error)) 0)
      cached_world.
Proof.
  apply (cache_reuse_ignores_database (answering_api true)
           (discovery_run [carol] None ["maybe"; "Y"])
           (RunInput None "https://keycloak" None None ["maybe"; "Y"]
              (Database [] (Some query_error)) 0)
           cached_world);
    [reflexivity | by eexists | reflexivity | repeat split | reflexivity].
Defined.

Lemma ask_reuse_repeats_until_answered_witness :
  ask_reuse ["maybe"; "N"; "y"] empty_world
  = (World ∅ tt [] [reuse_prompt; reuse_prompt], Ret false).
Proof.
  destruct (ask_reuse_repeats_until_answered ["maybe"] empty_world eq_refl)
    as [_ Hanswer].
  exact (Hanswer "N" ["y"] eq_refl).
Defined.

Lemma completed_import_posts_groups_then_users_witness :
  exists w' groups group_calls user_calls,
    main_import (answering_api true) users_file_run [alice; carol] empty_world
    = (w', Ret tt)
    /\ derive_groups [alice; carol] = Ret groups
    /\ calls w' = group_calls ++ user_calls
    /\ group_calls ≡ₚ map (pair "group") (List.filter (named "name") groups)
    /\ user_calls ≡ₚ map (pair "user") [alice; carol].
Proof.
  assert (exists w',
             main_import (answering_api true) users_file_run [alice; carol]
               empty_world = (w', Ret tt)) as [w' Hrun]
    by (eexists; vm_compute; reflexivity).
  destruct (completed_import_posts_groups_then_users (answering_api true)
              users_file_run [alice; carol] empty_world w'
              ltac:(discriminate) eq_refl Hrun)
    as (groups & group_calls & user_calls & Hgroups & Hcalls & Hg & Hu).
  exists w', groups, group_calls, user_calls.
  split; [exact Hrun|]. split; [exact Hgroups|]. split; [exact Hcalls|].
  split; [exact Hg|exact Hu].
Defined.
